(** * j5.Basic.DatabaseWriteLock: the process-wide database write lock

    A shallow embedding of [get_db_lock] and [release_db_lock]
    (src/j5/src/j5/Basic/DatabaseWriteLock.py) together with the shared
    objects they work on: the dictionary [thread_busy], the list objects it
    points to, and the condition [database_write_lock].

    Conventions of the model
    - A holder entry is the Python list [[holder, acquired_at, count, warned]].
      Lists are mutable and shared (a waiter keeps a reference to the list it
      first observed), so they live in a heap and are named by location.
    - [time.time()] readings are integers (clock ticks); every call site has
      its own reading, supplied by the caller of the model, and no order
      between readings is assumed.
    - Every statement that touches the table runs under the mutex of
      [database_write_lock]; a thread only gives the mutex up inside
      [wait()] and when it leaves the [with] block.  The code between two
      such points is one atomic action of the model.
    - Collaborators that are not part of this module (ThreadDebug,
      ThreadRaise, ServerMode, wiki2html, the admin e-mailer) are oracles:
      each call either succeeds or raises, as the action's readings say.
      [logging] calls never raise. *)

From stdpp Require Import gmap strings list.
From Stdlib Require Import ZArith Lia.

Local Open Scope Z_scope.

(** ** Data model *)

(** The list stored under a key of [thread_busy]
    (line 123: [[current_id, time.time(), 1, False]]). *)
Record HolderState := mkHolder {
  holder_id : Z;          (* element 0 *)
  acquired_at : Z;        (* element 1 *)
  reentrancy_count : Z;   (* element 2 *)
  warned : bool           (* element 3 *)
}.

#[global] Instance HolderState_eq_dec : EqDecision HolderState.
Proof. solve_decision. Defined.

#[global] Instance HolderState_inhabited : Inhabited HolderState :=
  populate (mkHolder 0 0 0 false).

(** Keys of [thread_busy]: [None] is the whole-database lock, a table name
    would be a string (comment at lines 16-18).  Only [None] is used. *)
Abbreviation LockKey := (option string).
Definition db_key : LockKey := None.

Inductive level := LInfo | LWarning | LError.

#[global] Instance level_eq_dec : EqDecision level.
Proof. solve_decision. Defined.

(** What a thread does that is visible outside its local variables. *)
Inductive event :=
  | EvLog (lv : level)             (* logging.info / warning / error *)
  | EvRoleQuery                    (* ServerMode().mode *)
  | EvFindFrame (target : Z)       (* ThreadDebug.find_thread_frame *)
  | EvFormatTraceback              (* ThreadDebug.format_traceback *)
  | EvAsyncRaise (target : Z)      (* ThreadRaise.thread_async_raise *)
  | EvRender                       (* wiki2html.creole2xhtml *)
  | EvSelectNotifier               (* Ratings.ratings.select *)
  | EvEmailAdmin                   (* email_admin.email_admin *)
  | EvMutexEnter                   (* with (database_write_lock): entry *)
  | EvMutexExit                    (* ... and exit *)
  | EvWait (timeout : Z)           (* database_write_lock.wait(timeout) *)
  | EvNotify.                      (* database_write_lock.notify() *)

#[global] Instance event_eq_dec : EqDecision event.
Proof. solve_decision. Defined.

(** Exceptions; one raised by a collaborator remembers the call it came
    from. *)
Inductive exn :=
  | TypeError
  | RuntimeError
  | CollaboratorError (origin : event).

#[global] Instance exn_eq_dec : EqDecision exn.
Proof. solve_decision. Defined.

Inductive call := CallGet | CallRelease.
Inductive completion := Returned | Raised (e : exn).

#[global] Instance call_eq_dec : EqDecision call.
Proof. solve_decision. Defined.
#[global] Instance completion_eq_dec : EqDecision completion.
Proof. solve_decision. Defined.

(** Local variables of a [get_db_lock] call suspended in [wait()]. *)
Record Waiter := mkWaiter {
  busy_op : nat;                       (* reference to the observed list *)
  start_time : Z;
  check_start_time : Z;
  max_wait_for_exclusive_lock : Z;
  warning_timeout : Z
}.

(** The shared state of the process. *)
Record Config := mkConfig {
  heap : list HolderState;             (* list objects, by location *)
  thread_busy : gmap LockKey nat;      (* the module-level dictionary *)
  cond_waiters : list Z;               (* queue of database_write_lock *)
  waiting : gmap Z Waiter;             (* calls suspended in wait() *)
  trace : list (Z * event);            (* events so far, oldest first *)
  results : list (Z * call * completion)  (* finished calls, oldest first *)
}.

Definition init : Config := mkConfig [] ∅ [] ∅ [] [].

Definition set_heap (h : list HolderState) (c : Config) : Config :=
  mkConfig h (thread_busy c) (cond_waiters c) (waiting c) (trace c) (results c).
Definition set_thread_busy (m : gmap LockKey nat) (c : Config) : Config :=
  mkConfig (heap c) m (cond_waiters c) (waiting c) (trace c) (results c).
Definition set_cond_waiters (q : list Z) (c : Config) : Config :=
  mkConfig (heap c) (thread_busy c) q (waiting c) (trace c) (results c).
Definition set_waiting (ws : gmap Z Waiter) (c : Config) : Config :=
  mkConfig (heap c) (thread_busy c) (cond_waiters c) ws (trace c) (results c).
Definition set_trace (tr : list (Z * event)) (c : Config) : Config :=
  mkConfig (heap c) (thread_busy c) (cond_waiters c) (waiting c) tr (results c).
Definition set_results (rs : list (Z * call * completion)) (c : Config) : Config :=
  mkConfig (heap c) (thread_busy c) (cond_waiters c) (waiting c) (trace c) rs.

(** ** A state-and-exception monad for the statements of the module *)

Inductive res (A : Type) :=
  | Val (a : A)
  | Exc (e : exn).
Arguments Val {A} a.
Arguments Exc {A} e.

Definition M (A : Type) : Type := Config → Config * res A.

#[global] Instance M_ret : MRet M := λ A a c, (c, Val a).
#[global] Instance M_bind : MBind M := λ A B f m c,
  match m c with
  | (c', Val a) => f a c'
  | (c', Exc e) => (c', Exc e)
  end.

Definition raise {A} (e : exn) : M A := λ c, (c, Exc e).

(** [try: m except Exception: h] *)
Definition try_except {A} (m : M A) (h : exn → M A) : M A := λ c,
  match m c with
  | (c', Val a) => (c', Val a)
  | (c', Exc e) => h e c'
  end.

Definition emit (t : Z) (ev : event) : M unit := λ c,
  (set_trace (trace c ++ [(t, ev)]) c, Val tt).

Definition log (t : Z) (lv : level) : M unit := emit t (EvLog lv).

(** Outcome of a collaborator call. *)
Inductive outcome (A : Type) :=
  | Ok (a : A)
  | Fails.
Arguments Ok {A} a.
Arguments Fails {A}.

Definition collab {A} (t : Z) (ev : event) (o : outcome A) : M A :=
  emit t ev;;
  match o with
  | Ok a => mret a
  | Fails => raise (CollaboratorError ev)
  end.

(** [with (database_write_lock): body]; the mutex is given up on every
    exit of the body.  An exception that reaches the thread after the body
    is done and before [__exit__] has run (the mutex would stay owned) is
    not modelled. *)
Definition with_lock {A} (t : Z) (body : M A) : M A := λ c,
  match (emit t EvMutexEnter;; body) c with
  | (c', r) => (fst (emit t EvMutexExit c'), r)
  end.

(** ** Heap and table primitives *)

(** A reference always names a live list; the default only makes the
    accessor total. *)
Definition lookup_state (c : Config) (l : nat) : HolderState :=
  default inhabitant (heap c !! l).

Definition deref (l : nat) : M HolderState := λ c, (c, Val (lookup_state c l)).

Definition store (l : nat) (hs : HolderState) : M unit := λ c,
  (set_heap (<[l := hs]> (heap c)) c, Val tt).

(** A new list object. *)
Definition alloc (hs : HolderState) : M nat := λ c,
  (set_heap (heap c ++ [hs]) c, Val (length (heap c))).

(** [thread_busy.get(None, None)] *)
Definition table_get : M (option nat) := λ c, (c, Val (thread_busy c !! db_key)).

(** [thread_busy[None] = <list>] *)
Definition table_set (l : nat) : M unit := λ c,
  (set_thread_busy (<[db_key := l]> (thread_busy c)) c, Val tt).

(** [thread_busy.pop(None, None)] *)
Definition table_pop : M unit := λ c,
  (set_thread_busy (delete db_key (thread_busy c)) c, Val tt).

(** [database_write_lock.notify()]: wakes one waiting thread, the one that
    has waited longest, if there is any (threading.Condition.notify, n=1). *)
Definition notify (t : Z) : M unit := λ c,
  (set_cond_waiters (tail (cond_waiters c)) (fst (emit t EvNotify c)), Val tt).

(** [busy_op[:2] == now_busy_op[:2]] *)
Definition same_op (a b : HolderState) : bool :=
  bool_decide (holder_id a = holder_id b) && bool_decide (acquired_at a = acquired_at b).

(** ** release_db_lock (lines 132-151)

    An asynchronous [RuntimeError] can reach the releasing thread between
    two statements.  A schedule names, for each activation of
    [release_db_lock] in turn, the place where that activation is
    interrupted; an activation beyond the end of the schedule, or one whose
    path does not pass the named place, runs undisturbed.  Interruptions
    that arrive while an [except] clause is running are not modelled. *)
Inductive point :=
  | AtEntry           (* in the outer try, before line 138 *)
  | BeforeDecrement   (* in the inner try, before line 142 *)
  | AfterDecrement    (* after line 142 *)
  | AfterPop          (* after line 144 *)
  | AfterNotify       (* after line 145, still in the inner try *)
  | AfterInnerTry.    (* inner try left, still in the body of the with block *)

#[global] Instance point_eq_dec : EqDecision point.
Proof. solve_decision. Defined.

(** Delivery of the pending interruption at place [p]. *)
Definition interrupt_at (intr : option point) (p : point) : M unit :=
  if bool_decide (intr = Some p) then raise RuntimeError else mret tt.

(** [try: m except RuntimeError: h] *)
Definition try_except_runtime {A} (m : M A) (h : M A) : M A := λ c,
  match m c with
  | (c', Exc RuntimeError) => h c'
  | r => r
  end.

Definition decrement (hs : HolderState) : HolderState :=
  mkHolder (holder_id hs) (acquired_at hs) (reentrancy_count hs - 1) (warned hs).

Definition increment (hs : HolderState) : HolderState :=
  mkHolder (holder_id hs) (acquired_at hs) (reentrancy_count hs + 1) (warned hs).

Definition mark_warned (hs : HolderState) : HolderState :=
  mkHolder (holder_id hs) (acquired_at hs) (reentrancy_count hs) true.

(** One activation; [retry] is the recursive call of lines 148 and 151. *)
Definition release_body (t : Z) (intr : option point) (retry : M unit) : M unit :=
  try_except_runtime
    (with_lock t
       (interrupt_at intr AtEntry;;
        busy_op ← table_get;
        match busy_op with
        | None => raise TypeError                 (* None[:] at line 138 *)
        | Some l =>
            snapshot ← deref l;
            busy_op_backup ← alloc snapshot;       (* busy_op[:] *)
            try_except_runtime
              (interrupt_at intr BeforeDecrement;;
               hs ← deref l;
               if bool_decide (holder_id hs = t) then
                 store l (decrement hs);;
                 interrupt_at intr AfterDecrement;;
                 if bool_decide (reentrancy_count hs - 1 ≤ 0) then
                   table_pop;;
                   interrupt_at intr AfterPop;;
                   notify t;;
                   interrupt_at intr AfterNotify
                 else mret tt
               else mret tt)
              (table_set busy_op_backup;; retry);;
            interrupt_at intr AfterInnerTry
        end))
    (log t LError;; retry).

Fixpoint release_db_lock (sched : list point) (t : Z) : M unit :=
  match sched with
  | [] => release_body t None (mret tt)
  | p :: rest => release_body t (Some p) (release_db_lock rest t)
  end.

(** ** get_db_lock (lines 45-130) *)

(** Arguments of a call and what the collaborators and the clock answer
    up to the first [wait()]. *)
Record EnterReadings := mkEnter {
  e_max_wait : Z;                  (* max_wait_for_exclusive_lock *)
  e_warning_timeout : Z;           (* warning_timeout *)
  e_slave : outcome bool;          (* ServerMode().mode == SLAVE, line 47 *)
  e_frame : outcome unit;          (* find_thread_frame, line 49 *)
  e_traceback : outcome unit;      (* format_traceback, line 50 *)
  e_start : Z;                     (* time.time(), line 61 *)
  e_wait_now : Z;                  (* time.time(), line 67 *)
  e_install : Z                    (* time.time(), line 123 *)
}.

(** What the collaborators and the clock answer between the return of one
    [wait()] and the next one (or the end of the call). *)
Record WakeReadings := mkWake {
  w_deadline_now : Z;              (* time.time(), line 71 *)
  w_warn_now : Z;                  (* time.time(), line 106 *)
  w_anchor_now : Z;                (* time.time(), line 117 or 120 *)
  w_wait_now : Z;                  (* time.time(), line 67 *)
  w_install : Z;                   (* time.time(), line 123 *)
  w_frame : outcome unit;          (* find_thread_frame, line 75 or 110 *)
  w_traceback : outcome unit;      (* format_traceback, line 76 or 111 *)
  w_async_raise : outcome unit;    (* thread_async_raise, line 81 *)
  w_render : outcome string;       (* creole2xhtml, line 96 *)
  w_notifier : outcome bool;       (* ratings.select(...) is truthy, line 126 *)
  w_email : outcome unit           (* email_admin(...), line 128 *)
}.

(** Lines 47-51.  Nothing here is inside a [try]. *)
Definition role_guard (t : Z) (rd : EnterReadings) : M unit :=
  slave ← collab t EvRoleQuery (e_slave rd);
  if (slave : bool) then
    log t LError;;
    collab t (EvFindFrame t) (e_frame rd);;
    collab t EvFormatTraceback (e_traceback rd);;
    log t LInfo
  else mret tt.

(** Line 123: a new list, stored under the key. *)
Definition install (t now : Z) : M unit :=
  l ← alloc (mkHolder t now 1 false);
  table_set l.

(** Lines 65-67: the head of the loop for a truthy [busy_op]; the call is
    parked with its local variables. *)
Definition suspend (t : Z) (w : Waiter) : M unit := λ c,
  (set_cond_waiters (cond_waiters c ++ [t])
     (set_waiting (<[t := w]> (waiting c)) c), Val tt).

Definition park (t : Z) (w : Waiter) (now : Z) : M unit :=
  log t LInfo;;
  emit t (EvWait (warning_timeout w - (now - check_start_time w)));;
  suspend t w.

(** Lines 73-102, the body of the [try] of a forced takeover.  The result
    is [dump_file_contents]; [email_msg] is assigned right after it. *)
Definition takeover_report (t holder : Z) (rd : WakeReadings) : M string :=
  collab t (EvFindFrame holder) (w_frame rd);;
  collab t EvFormatTraceback (w_traceback rd);;
  log t LError;;
  log t LInfo;;
  try_except
    (collab t (EvAsyncRaise holder) (w_async_raise rd))
    (* line 84 formats the exception with %e, which needs a number:
       the handler itself raises before it logs anything *)
    (λ _, raise TypeError);;
  collab t EvRender (w_render rd).

(** Lines 108-116. *)
Definition warn_block (t : Z) (l : nat) (rd : WakeReadings) : M unit :=
  try_except
    (hs ← deref l;
     collab t (EvFindFrame (holder_id hs)) (w_frame rd);;
     collab t EvFormatTraceback (w_traceback rd);;
     log t LWarning;;
     log t LInfo;;
     store l (mark_warned hs))                            (* busy_op[3] = True *)
    (λ _, log t LError).

(** Local variables at the end of one turn of the loop. *)
Record Locals := mkLocals {
  loc_busy_op : option nat;
  loc_check_start_time : Z;
  loc_dump_file_contents : option string   (* email_msg is set with it *)
}.

(** Lines 68-120: one turn of the loop, from the return of [wait()]. *)
Definition loop_turn (t : Z) (w : Waiter) (rd : WakeReadings) : M Locals :=
  now_busy_op ← table_get;
  old ← deref (busy_op w);
  same ← match now_busy_op with
          | Some l' => new ← deref l'; mret (same_op old new)
          | None => mret false
          end;
  if (same : bool) then
    if bool_decide (w_deadline_now rd - start_time w > max_wait_for_exclusive_lock w) then
      dump ← try_except
                (d ← takeover_report t (holder_id old) rd; mret (Some d))
                (λ _, log t LError;; mret None);
      mret (mkLocals None (check_start_time w) dump)
    else if bool_decide (w_warn_now rd - check_start_time w > warning_timeout w) then
      cur ← deref (busy_op w);
      (if warned cur then mret tt else warn_block t (busy_op w) rd);;
      mret (mkLocals (Some (busy_op w)) (w_anchor_now rd) None)
    else mret (mkLocals (Some (busy_op w)) (check_start_time w) None)
  else mret (mkLocals now_busy_op (w_anchor_now rd) None).

(** Lines 125-130, after the [with] block. *)
Definition notify_admin (t : Z) (dump : option string) (rd : WakeReadings) : M unit :=
  match dump with
  | Some d =>
      if bool_decide (d = EmptyString) then mret tt   (* an empty document is falsy *)
      else
        email_admin ← collab t EvSelectNotifier (w_notifier rd);
        if (email_admin : bool) then collab t EvEmailAdmin (w_email rd)
        else log t LError
  | None => mret tt
  end.

(** How an atomic action of [get_db_lock] ends. *)
Inductive progress := Blocked | Finished.

(** From the call to the first [wait()] or to the return. *)
Definition get_db_lock_enter (t : Z) (rd : EnterReadings) : M progress :=
  role_guard t rd;;
  emit t EvMutexEnter;;
  busy ← table_get;
  match busy with
  | Some l =>
      hs ← deref l;
      if bool_decide (holder_id hs = t) then
        store l (increment hs);;               (* line 58 *)
        emit t EvMutexExit;;
        mret Finished
      else
        park t (mkWaiter l (e_start rd) (e_start rd) (e_max_wait rd) (e_warning_timeout rd))
             (e_wait_now rd);;
        mret Blocked
  | None =>
      install t (e_install rd);;
      emit t EvMutexExit;;
      mret Finished
  end.

(** From the return of [wait()] to the next [wait()] or to the return.
    The code after the [with] block (lines 125-130) is run with the action
    that leaves the block: it touches neither the table nor the lists nor
    the waiters, so the table after the action is the table as the call
    left it under the mutex.  What other threads do while the mail is sent
    is not interleaved with it; what is said about a finished call is said
    about that table, not about the moment the call returns. *)
Definition get_db_lock_wake (t : Z) (w : Waiter) (rd : WakeReadings) : M progress :=
  lv ← loop_turn t w rd;
  match loc_busy_op lv with
  | Some l =>
      park t (mkWaiter l (start_time w) (loc_check_start_time lv)
                (max_wait_for_exclusive_lock w) (warning_timeout w))
           (w_wait_now rd);;
      mret Blocked
  | None =>
      install t (w_install rd);;
      emit t EvMutexExit;;
      notify_admin t (loc_dump_file_contents lv) rd;;
      mret Finished
  end.

(** ** The threads of the process *)

Inductive action :=
  | ActGet (t : Z) (rd : EnterReadings)     (* t calls get_db_lock *)
  | ActWake (t : Z) (rd : WakeReadings)     (* t's wait() returns *)
  | ActRelease (t : Z).                     (* t calls release_db_lock *)

Definition record_result (t : Z) (k : call) (r : completion) (c : Config) : Config :=
  set_results (results c ++ [(t, k, r)]) c.

Definition finish_get {A} (t : Z) (out : Config * res A) (blocked : A → bool) : Config :=
  match out with
  | (c', Val a) => if blocked a then c' else record_result t CallGet Returned c'
  | (c', Exc e) => record_result t CallGet (Raised e) c'
  end.

Definition is_blocked (p : progress) : bool :=
  match p with Blocked => true | Finished => false end.

(** A thread suspended in [wait()] cannot start another call; such an
    action leaves the configuration as it is. *)
Definition step (a : action) (c : Config) : Config :=
  match a with
  | ActGet t rd =>
      match waiting c !! t with
      | Some _ => c
      | None => finish_get t (get_db_lock_enter t rd c) is_blocked
      end
  | ActWake t rd =>
      match waiting c !! t with
      | Some w =>
          let c0 := set_cond_waiters (filter (λ u, u ≠ t) (cond_waiters c))
                      (set_waiting (delete t (waiting c)) c) in
          finish_get t (get_db_lock_wake t w rd c0) is_blocked
      | None => c
      end
  | ActRelease t =>
      match waiting c !! t with
      | Some _ => c
      | None =>
          match release_db_lock [] t c with
          | (c', Val _) => record_result t CallRelease Returned c'
          | (c', Exc e) => record_result t CallRelease (Raised e) c'
          end
      end
  end.

Definition run (acts : list action) (c : Config) : Config :=
  foldl (λ c a, step a c) c acts.

(** The entry of the table, by value. *)
Definition holder_state (c : Config) : option HolderState :=
  l ← thread_busy c !! db_key; heap c !! l.

(** * Properties *)

(** ** What the blocks of the code do to the configuration *)

Definition add_trace (evs : list (Z * event)) (c : Config) : Config :=
  set_trace (trace c ++ evs) c.

(** Events of thread [t] that all satisfy [P]. *)
Definition tagged (t : Z) (P : event → bool) (evs : list (Z * event)) : Prop :=
  Forall (λ e, e.1 = t ∧ P e.2 = true) evs.

(** Diagnostics: log lines other than the timeout warning, and the calls
    made to collect and render tracebacks. *)
Definition is_diag (ev : event) : bool :=
  match ev with
  | EvLog LWarning => false
  | EvLog _ | EvRoleQuery | EvFindFrame _ | EvFormatTraceback
  | EvAsyncRaise _ | EvRender => true
  | _ => false
  end.

(** What the code after the [with] block of [get_db_lock] does. *)
Definition is_notif (ev : event) : bool :=
  match ev with
  | EvSelectNotifier | EvEmailAdmin | EvLog LError => true
  | _ => false
  end.

(** What the role check of lines 47-51 does. *)
Definition is_guard (ev : event) : bool :=
  match ev with
  | EvRoleQuery | EvLog LError | EvLog LInfo | EvFindFrame _ | EvFormatTraceback => true
  | _ => false
  end.

Lemma add_trace_nil c : add_trace [] c = c.
Proof. destruct c; unfold add_trace, set_trace; simpl. by rewrite app_nil_r. Qed.

Lemma add_trace_app e1 e2 c :
  add_trace e2 (add_trace e1 c) = add_trace (e1 ++ e2) c.
Proof. unfold add_trace, set_trace; simpl. by rewrite app_assoc. Qed.

Lemma tagged_app t P e1 e2 : tagged t P e1 → tagged t P e2 → tagged t P (e1 ++ e2).
Proof. apply Forall_app_2. Qed.

Lemma tagged_weaken t (P Q : event → bool) evs :
  (∀ ev, P ev = true → Q ev = true) → tagged t P evs → tagged t Q evs.
Proof. intros HPQ H. eapply Forall_impl; [exact H|]. intros e [? ?]; auto. Qed.

Ltac unfold_monad :=
  unfold collab, log, emit, raise, try_except, deref, store, alloc, table_get,
    table_set, table_pop, suspend, mbind, mret, M_bind, M_ret in *.

Ltac tagged_list :=
  unfold tagged; repeat (first [apply Forall_nil_2 | apply Forall_cons_2; [done|]]).

(** Normal form of the trace of a straight-line block. *)
Ltac trace_nf :=
  unfold add_trace, set_trace; simpl; rewrite <- ?app_assoc; simpl.

(** A finished call of [get_db_lock] has taken the lock when it returned,
    and also when the exception came from the notification of the
    administrator, which runs after the table was written. *)
Definition acquired (r : completion) : bool :=
  match r with
  | Returned => true
  | Raised (CollaboratorError EvSelectNotifier)
  | Raised (CollaboratorError EvEmailAdmin) => true
  | Raised _ => false
  end.

Definition completion_of {A} (r : res A) : completion :=
  match r with Val _ => Returned | Exc e => Raised e end.

(** The role check of lines 47-51 runs through without an exception. *)
Definition guard_passes (rd : EnterReadings) : bool :=
  match e_slave rd with
  | Ok false => true
  | Ok true =>
      match e_frame rd, e_traceback rd with
      | Ok _, Ok _ => true
      | _, _ => false
      end
  | Fails => false
  end.

#[global] Arguments role_guard : simpl never.
#[global] Arguments takeover_report : simpl never.
#[global] Arguments warn_block : simpl never.
#[global] Arguments notify_admin : simpl never.
#[global] Arguments loop_turn : simpl never.

Lemma role_guard_spec t rd c :
  ∃ evs r, role_guard t rd c = (add_trace evs c, r) ∧ tagged t is_guard evs
           ∧ ((r = Val tt ∧ guard_passes rd = true)
              ∨ ∃ e, r = Exc e ∧ acquired (Raised e) = false
                     ∧ guard_passes rd = false).
Proof.
  unfold role_guard, guard_passes; unfold_monad.
  destruct (e_slave rd) as [[]|], (e_frame rd), (e_traceback rd); simpl;
    eexists _, _; (split; [trace_nf; reflexivity |]);
    (split; [tagged_list | eauto]).
Qed.

Lemma takeover_report_spec t h rd c :
  ∃ evs r, takeover_report t h rd c = (add_trace evs c, r) ∧ tagged t is_diag evs.
Proof.
  unfold takeover_report; unfold_monad.
  destruct (w_frame rd), (w_traceback rd), (w_async_raise rd), (w_render rd); simpl;
    eexists _, _; (split; [trace_nf; reflexivity | tagged_list]).
Qed.

Lemma notify_admin_spec t dump rd c :
  ∃ evs r, notify_admin t dump rd c = (add_trace evs c, r) ∧ tagged t is_notif evs
           ∧ acquired (completion_of r) = true.
Proof.
  unfold notify_admin; unfold_monad.
  destruct dump as [d|]; [destruct (bool_decide (d = EmptyString))|].
  1,3: exists [], (Val tt); rewrite add_trace_nil; split_and!; [done|tagged_list|done].
  destruct (w_notifier rd) as [[]|], (w_email rd) as [[]|]; simpl;
    eexists _, _; (split; [trace_nf; reflexivity |]);
    (split; [tagged_list | done]).
Qed.

(** The warning block either fails before the warning is logged and leaves
    the flag alone, or logs the warning once and sets the flag. *)
Lemma warn_block_spec t l rd c :
  (∃ evs, warn_block t l rd c = (add_trace evs c, Val tt) ∧ tagged t is_diag evs)
  ∨ (∃ e1 e2,
       warn_block t l rd c =
         (add_trace (e1 ++ (t, EvLog LWarning) :: e2)
            (set_heap (<[l := mark_warned (lookup_state c l)]> (heap c)) c), Val tt)
       ∧ tagged t is_diag e1 ∧ tagged t is_diag e2).
Proof.
  unfold warn_block; unfold_monad.
  destruct (w_frame rd) eqn:Hf, (w_traceback rd) eqn:Ht; simpl.
  - right.
    exists [(t, EvFindFrame (holder_id (lookup_state c l))); (t, EvFormatTraceback)],
           [(t, EvLog LInfo)].
    split; [trace_nf; reflexivity | split; tagged_list].
  - left. eexists; split; [trace_nf; reflexivity | tagged_list].
  - left. eexists; split; [trace_nf; reflexivity | tagged_list].
  - left. eexists; split; [trace_nf; reflexivity | tagged_list].
Qed.

(** The forced-takeover condition of line 70-71, as the waiter sees it. *)
Definition takeover_due (c : Config) (w : Waiter) (rd : WakeReadings) : Prop :=
  ∃ l, thread_busy c !! db_key = Some l
       ∧ same_op (lookup_state c (busy_op w)) (lookup_state c l) = true
       ∧ w_deadline_now rd - start_time w > max_wait_for_exclusive_lock w.

(** One turn of the loop never touches the table, the queue or the parked
    calls; in the heap it can only set the flag of the observed list. *)
Definition turn_post (t : Z) (w : Waiter) (rd : WakeReadings) (c : Config)
    (out : Config * res Locals) : Prop :=
  ∃ c' lv evs,
    out = (c', Val lv)
    ∧ thread_busy c' = thread_busy c ∧ waiting c' = waiting c
    ∧ cond_waiters c' = cond_waiters c ∧ results c' = results c
    ∧ trace c' = trace c ++ evs
    ∧ ((heap c' = heap c ∧ tagged t is_diag evs)
       ∨ (loc_busy_op lv = Some (busy_op w)
          ∧ warned (lookup_state c (busy_op w)) = false
          ∧ heap c' = <[busy_op w := mark_warned (lookup_state c (busy_op w))]> (heap c)
          ∧ ∃ e1 e2, evs = e1 ++ (t, EvLog LWarning) :: e2
                     ∧ tagged t is_diag e1 ∧ tagged t is_diag e2))
    ∧ match loc_busy_op lv with
      | Some l => (l = busy_op w ∨ thread_busy c !! db_key = Some l)
                  ∧ loc_dump_file_contents lv = None
      | None => True
      end
    ∧ (takeover_due c w rd → loc_busy_op lv = None ∧ heap c' = heap c).

Lemma turn_post_quiet t w rd c evs lv :
  tagged t is_diag evs →
  match loc_busy_op lv with
  | Some l => (l = busy_op w ∨ thread_busy c !! db_key = Some l)
              ∧ loc_dump_file_contents lv = None
  | None => True
  end →
  (takeover_due c w rd → loc_busy_op lv = None) →
  turn_post t w rd c (add_trace evs c, Val lv).
Proof.
  intros Htag Hlv Hdue. exists (add_trace evs c), lv, evs.
  split_and!; try done.
  - by left.
  - intros H; split; [auto|done].
Qed.

Lemma loop_turn_spec t w rd c : turn_post t w rd c (loop_turn t w rd c).
Proof.
  unfold loop_turn.
  unfold mbind at 1, M_bind at 1, table_get at 1.
  unfold mbind at 1, M_bind at 1, deref at 1.
  destruct (thread_busy c !! db_key) as [l'|] eqn:Htb; simpl.
  2: { rewrite <- (add_trace_nil c) at 2. apply turn_post_quiet; [tagged_list|done|].
       intros (l & ? & _); congruence. }
  unfold_monad; simpl.
  destruct (same_op (lookup_state c (busy_op w)) (lookup_state c l')) eqn:Hsame; simpl.
  2: { rewrite <- (add_trace_nil c) at 2. apply turn_post_quiet; [tagged_list|simpl; auto|].
       intros (l & Hl & Hs & _). rewrite Htb in Hl. simplify_eq. congruence. }
  case_bool_decide as Hdead; simpl.
  { destruct (takeover_report_spec t (holder_id (lookup_state c (busy_op w))) rd c)
      as (evs & r & Hr & Htag).
    rewrite Hr. destruct r as [d|e]; simpl.
    - apply turn_post_quiet; simpl; done.
    - replace (set_trace ((trace c ++ evs) ++ [(t, EvLog LError)]) (add_trace evs c))
        with (add_trace (evs ++ [(t, EvLog LError)]) c)
        by (unfold add_trace, set_trace; simpl; by rewrite app_assoc).
      apply turn_post_quiet; simpl; try done.
      apply tagged_app; [done | tagged_list]. }
  case_bool_decide as Hwarn; simpl.
  2: { rewrite <- (add_trace_nil c) at 2. apply turn_post_quiet; [tagged_list|simpl; auto|].
       intros (l & _ & _ & ?). lia. }
  destruct (warned (lookup_state c (busy_op w))) eqn:Hw; simpl.
  { rewrite <- (add_trace_nil c) at 2. apply turn_post_quiet; [tagged_list|simpl; auto|].
    intros (l & _ & _ & ?). lia. }
  destruct (warn_block_spec t (busy_op w) rd c) as [(evs & Hr & Htag)|(e1 & e2 & Hr & H1 & H2)];
    rewrite Hr; simpl.
  - apply turn_post_quiet; simpl; try done; auto.
    intros (l & _ & _ & ?). lia.
  - eexists _, _, _. split; [reflexivity|]. simpl. split_and!; try done.
    + right. split_and!; try done. eauto.
    + auto.
    + intros (l & _ & _ & ?). lia.
Qed.

(** ** What one action does to the configuration *)

Lemma bind_run {A B} (m : M A) (f : A → M B) c :
  (m ≫= f) c = match m c with
                | (c', Val a) => f a c'
                | (c', Exc e) => (c', Exc e)
                end.
Proof. reflexivity. Qed.

(** The four ways a call of [get_db_lock] can start. *)
Lemma step_get_spec t rd c :
  waiting c !! t = None →
  ∃ evs, tagged t is_guard evs ∧
    ((∃ e, acquired (Raised e) = false ∧ guard_passes rd = false
        ∧ step (ActGet t rd) c =
            mkConfig (heap c) (thread_busy c) (cond_waiters c) (waiting c)
              (trace c ++ evs) (results c ++ [(t, CallGet, Raised e)]))
     ∨ (thread_busy c !! db_key = None
        ∧ step (ActGet t rd) c =
            mkConfig (heap c ++ [mkHolder t (e_install rd) 1 false])
              (<[db_key := length (heap c)]> (thread_busy c))
              (cond_waiters c) (waiting c)
              (trace c ++ evs ++ [(t, EvMutexEnter); (t, EvMutexExit)])
              (results c ++ [(t, CallGet, Returned)]))
     ∨ (∃ l, thread_busy c !! db_key = Some l
        ∧ holder_id (lookup_state c l) = t
        ∧ step (ActGet t rd) c =
            mkConfig (<[l := increment (lookup_state c l)]> (heap c))
              (thread_busy c) (cond_waiters c) (waiting c)
              (trace c ++ evs ++ [(t, EvMutexEnter); (t, EvMutexExit)])
              (results c ++ [(t, CallGet, Returned)]))
     ∨ (∃ l, thread_busy c !! db_key = Some l
        ∧ holder_id (lookup_state c l) ≠ t
        ∧ step (ActGet t rd) c =
            mkConfig (heap c) (thread_busy c) (cond_waiters c ++ [t])
              (<[t := mkWaiter l (e_start rd) (e_start rd) (e_max_wait rd)
                        (e_warning_timeout rd)]> (waiting c))
              (trace c ++ evs ++ [(t, EvMutexEnter); (t, EvLog LInfo);
                 (t, EvWait (e_warning_timeout rd - (e_wait_now rd - e_start rd)))])
              (results c))).
Proof.
  intros Hw. unfold step. rewrite Hw. unfold get_db_lock_enter.
  rewrite bind_run.
  destruct (role_guard_spec t rd c) as (evs & r & Hr & Htag & Hres). rewrite Hr.
  exists evs. split; [done|].
  destruct Hres as [[-> _]|(e & -> & He & Hg)].
  2: { left. exists e. split_and!; [done|done|reflexivity]. }
  right. unfold_monad; simpl.
  destruct (thread_busy c !! db_key) as [l|] eqn:Htb; simpl.
  2: { left. split; [done|]. unfold record_result, set_results; simpl.
       f_equal. by rewrite <- !app_assoc. }
  right. unfold lookup_state at 1; simpl. fold (lookup_state c l).
  case_bool_decide as Hh; simpl.
  - left. exists l. split_and!; try done.
    unfold record_result, set_results, install, park; simpl.
    f_equal. by rewrite <- !app_assoc.
  - right. exists l. split_and!; try done.
    unfold park; unfold_monad; simpl. unfold set_cond_waiters, set_waiting; simpl.
    f_equal. by rewrite <- !app_assoc.
Qed.

(** What the waiter's turn did to the heap and which events it left:
    nothing but diagnostics, or one warning together with the flag. *)
Definition turn_effect (t : Z) (w : Waiter) (c : Config)
    (h' : list HolderState) (evs : list (Z * event)) : Prop :=
  (h' = heap c ∧ tagged t is_diag evs)
  ∨ (warned (lookup_state c (busy_op w)) = false
     ∧ h' = <[busy_op w := mark_warned (lookup_state c (busy_op w))]> (heap c)
     ∧ ∃ e1 e2, evs = e1 ++ (t, EvLog LWarning) :: e2
                ∧ tagged t is_diag e1 ∧ tagged t is_diag e2).

(** The two ways a turn of the waiting loop can end. *)
Lemma step_wake_spec t w rd c :
  waiting c !! t = Some w →
  ∃ h' evs, turn_effect t w c h' evs ∧
    ((∃ l chk, (l = busy_op w ∨ thread_busy c !! db_key = Some l)
        ∧ ¬ takeover_due c w rd
        ∧ step (ActWake t rd) c =
            mkConfig h' (thread_busy c)
              (filter (λ u, u ≠ t) (cond_waiters c) ++ [t])
              (<[t := mkWaiter l (start_time w) chk (max_wait_for_exclusive_lock w)
                        (warning_timeout w)]> (delete t (waiting c)))
              (trace c ++ evs ++ [(t, EvLog LInfo);
                 (t, EvWait (warning_timeout w - (w_wait_now rd - chk)))])
              (results c))
     ∨ (h' = heap c ∧ tagged t is_diag evs
        ∧ ∃ nevs r, tagged t is_notif nevs ∧ acquired r = true
        ∧ step (ActWake t rd) c =
            mkConfig (heap c ++ [mkHolder t (w_install rd) 1 false])
              (<[db_key := length (heap c)]> (thread_busy c))
              (filter (λ u, u ≠ t) (cond_waiters c))
              (delete t (waiting c))
              (trace c ++ evs ++ (t, EvMutexExit) :: nevs)
              (results c ++ [(t, CallGet, r)]))).
Proof.
  intros Hw. unfold step. rewrite Hw. unfold get_db_lock_wake.
  rewrite bind_run.
  set (c0 := set_cond_waiters _ _).
  destruct (loop_turn_spec t w rd c0)
    as (c' & lv & evs & Hr & Htb & Hwt & Hcw & Hrs & Htr & Heff & Hlv & Hdue).
  rewrite Hr. exists (heap c'), evs. split.
  { destruct Heff as [[? ?]|(? & ? & ? & ?)]; [by left | right; done]. }
  destruct (loc_busy_op lv) as [l|] eqn:Hl.
  - left. destruct Hlv as [Hlv _]. exists l, (loc_check_start_time lv).
    split_and!; [done| |].
    { intros Hd. destruct Hdue as [? _]; [|done].
      destruct Hd as (l0 & ? & ? & ?). exists l0. done. }
    unfold park; unfold_monad; simpl.
    unfold set_cond_waiters, set_waiting, finish_get; simpl.
    rewrite Htb, Hwt, Hcw, Hrs, Htr. simpl.
    f_equal. by rewrite <- !app_assoc.
  - right. destruct Heff as [[Hh Htag]|(? & ? & ? & ?)]; [|done].
    split_and!; try done.
    set (c1 := fst ((install t (w_install rd);; emit t EvMutexExit) c')).
    destruct (notify_admin_spec t (loc_dump_file_contents lv) rd c1)
      as (nevs & r & Hn & Hntag & Hnres).
    exists nevs, (completion_of r).
    split; [done|]. split; [done|].
    unfold install; unfold_monad; simpl.
    unfold c1, install in Hn; unfold_monad; simpl in Hn. rewrite Hn.
    destruct r as [[]|e]; simpl;
      unfold finish_get, record_result, set_results, add_trace; simpl;
      rewrite Htb, Hwt, Hcw, Hrs, Htr, Hh; simpl;
      (f_equal; by rewrite <- !app_assoc).
Qed.

(** The four ways an undisturbed call of [release_db_lock] can go. *)
Lemma step_release_spec t c :
  waiting c !! t = None →
  (∀ l, thread_busy c !! db_key = Some l → (l < length (heap c))%nat) →
  (thread_busy c !! db_key = None
   ∧ step (ActRelease t) c =
       mkConfig (heap c) (thread_busy c) (cond_waiters c) (waiting c)
         (trace c ++ [(t, EvMutexEnter); (t, EvMutexExit)])
         (results c ++ [(t, CallRelease, Raised TypeError)]))
  ∨ (∃ l, thread_busy c !! db_key = Some l
     ∧ holder_id (lookup_state c l) ≠ t
     ∧ step (ActRelease t) c =
         mkConfig (heap c ++ [lookup_state c l]) (thread_busy c)
           (cond_waiters c) (waiting c)
           (trace c ++ [(t, EvMutexEnter); (t, EvMutexExit)])
           (results c ++ [(t, CallRelease, Returned)]))
  ∨ (∃ l, thread_busy c !! db_key = Some l
     ∧ holder_id (lookup_state c l) = t
     ∧ ¬ reentrancy_count (lookup_state c l) - 1 ≤ 0
     ∧ step (ActRelease t) c =
         mkConfig (<[l := decrement (lookup_state c l)]> (heap c ++ [lookup_state c l]))
           (thread_busy c) (cond_waiters c) (waiting c)
           (trace c ++ [(t, EvMutexEnter); (t, EvMutexExit)])
           (results c ++ [(t, CallRelease, Returned)]))
  ∨ (∃ l, thread_busy c !! db_key = Some l
     ∧ holder_id (lookup_state c l) = t
     ∧ reentrancy_count (lookup_state c l) - 1 ≤ 0
     ∧ step (ActRelease t) c =
         mkConfig (<[l := decrement (lookup_state c l)]> (heap c ++ [lookup_state c l]))
           (delete db_key (thread_busy c)) (tail (cond_waiters c)) (waiting c)
           (trace c ++ [(t, EvMutexEnter); (t, EvNotify); (t, EvMutexExit)])
           (results c ++ [(t, CallRelease, Returned)])).
Proof.
  intros Hw Hlive. unfold step. rewrite Hw.
  unfold release_db_lock, release_body, with_lock, try_except_runtime, interrupt_at, notify.
  unfold_monad; simpl.
  destruct (thread_busy c !! db_key) as [l|] eqn:Htb; simpl.
  2: { left. split; [done|]. unfold record_result, set_results; simpl.
       f_equal. by rewrite <- !app_assoc. }
  right. specialize (Hlive l eq_refl).
  assert (Hsame : lookup_state
            (set_heap (heap c ++ [lookup_state c l])
               (set_trace (trace c ++ [(t, EvMutexEnter)]) c)) l = lookup_state c l).
  { unfold lookup_state; simpl. by rewrite lookup_app_l. }
  change (lookup_state (set_trace (trace c ++ [(t, EvMutexEnter)]) c) l)
    with (lookup_state c l).
  rewrite !Hsame.
  case_bool_decide as Hh; simpl.
  2: { left. exists l. split_and!; try done.
       unfold record_result, set_results; simpl. f_equal. by rewrite <- !app_assoc. }
  right. case_bool_decide as Hc; simpl.
  - right. exists l. split_and!; try done.
    unfold record_result, set_results; simpl. f_equal. by rewrite <- !app_assoc.
  - left. exists l. split_and!; try done.
    unfold record_result, set_results; simpl. f_equal. by rewrite <- !app_assoc.
Qed.

(** ** The lock as the specification describes it

    The specification keeps, per key, the holder and its net number of
    acquisitions (acquires minus releases); the key is free when there is no
    such pair.  [spec_step] replays a finished call on that description; it
    looks at nothing but who called what and how the call ended. *)
Definition spec_step (s : option (Z * Z)) (r : Z * call * completion) : option (Z * Z) :=
  match r with
  | (t, CallGet, k) =>
      if acquired k then
        match s with
        | Some (h, n) => if bool_decide (h = t) then Some (h, n + 1) else Some (t, 1)
        | None => Some (t, 1)
        end
      else s
  | (t, CallRelease, Returned) =>
      match s with
      | Some (h, n) =>
          if bool_decide (h = t)
          then (if bool_decide (n - 1 = 0) then None else Some (h, n - 1))
          else s
      | None => s
      end
  | (t, CallRelease, Raised _) => s
  end.

Definition spec_lock (rs : list (Z * call * completion)) : option (Z * Z) :=
  foldl spec_step None rs.

(** Net acquisitions of the holder; zero when the key is free. *)
Definition net (s : option (Z * Z)) : Z :=
  match s with Some (_, n) => n | None => 0 end.

(** Holder and count as the table has them. *)
Definition owner (c : Config) : option (Z * Z) :=
  (λ hs, (holder_id hs, reentrancy_count hs)) <$> holder_state c.

(** Thread [t] is recorded as holder of the key. *)
Definition is_holder (c : Config) (t : Z) : Prop :=
  ∃ hs, holder_state c = Some hs ∧ holder_id hs = t.

(** ** Invariant of the reachable configurations *)
Record wf (c : Config) : Prop := mkWf {
  wf_live : ∀ l, thread_busy c !! db_key = Some l → (l < length (heap c))%nat;
  wf_waiter_live : ∀ t w, waiting c !! t = Some w → (busy_op w < length (heap c))%nat;
  wf_count : ∀ hs, holder_state c = Some hs → 1 ≤ reentrancy_count hs;
  wf_waiter_not_holder :
    ∀ t w hs, waiting c !! t = Some w → holder_state c = Some hs → holder_id hs ≠ t;
  wf_refines : owner c = spec_lock (results c)
}.

Lemma lookup_state_live c l :
  (l < length (heap c))%nat → heap c !! l = Some (lookup_state c l).
Proof.
  intros Hl. unfold lookup_state.
  destruct (lookup_lt_is_Some_2 _ _ Hl) as [x ->]. done.
Qed.

Lemma holder_state_live c l :
  thread_busy c !! db_key = Some l → (l < length (heap c))%nat →
  holder_state c = Some (lookup_state c l).
Proof.
  intros Htb Hl. unfold holder_state. rewrite Htb. simpl. by apply lookup_state_live.
Qed.

Lemma holder_state_free c : thread_busy c !! db_key = None → holder_state c = None.
Proof. intros Htb. unfold holder_state. by rewrite Htb. Qed.

(** The part of an entry that a waiter's turn cannot change. *)
Definition core (hs : HolderState) : Z * Z * Z :=
  (holder_id hs, acquired_at hs, reentrancy_count hs).

Lemma turn_effect_heap t w c h' evs :
  turn_effect t w c h' evs →
  length h' = length (heap c)
  ∧ ∀ l, core <$> h' !! l = core <$> heap c !! l.
Proof.
  intros [[-> _]|(_ & -> & _)]; [done|].
  split; [by rewrite length_insert|].
  intros l. destruct (decide (busy_op w = l)) as [<-|Hne].
  - destruct (decide (busy_op w < length (heap c))%nat) as [Hlt|Hge].
    + rewrite list_lookup_insert_eq by done. rewrite (lookup_state_live _ _ Hlt). done.
    + rewrite list_insert_ge by lia. done.
  - by rewrite list_lookup_insert_ne.
Qed.

Lemma spec_lock_snoc rs r : spec_lock (rs ++ [r]) = spec_step (spec_lock rs) r.
Proof. unfold spec_lock. by rewrite foldl_app. Qed.

Lemma wf_init : wf init.
Proof. split; unfold init, owner, holder_state; simpl; intros; simplify_map_eq; done. Qed.

Lemma holder_state_install h tb cw ws tr rs hs :
  holder_state (mkConfig (h ++ [hs]) (<[db_key := length h]> tb) cw ws tr rs) = Some hs.
Proof.
  unfold holder_state; simpl. rewrite lookup_insert_eq. simpl.
  by rewrite list_lookup_middle.
Qed.

Lemma owner_live c l :
  thread_busy c !! db_key = Some l → (l < length (heap c))%nat →
  owner c = Some (holder_id (lookup_state c l), reentrancy_count (lookup_state c l)).
Proof. intros ? ?. unfold owner. by erewrite holder_state_live. Qed.

Lemma wf_step_get t rd c : wf c → waiting c !! t = None → wf (step (ActGet t rd) c).
Proof.
  intros [Hlive Hwl Hcnt Hnh Href] Hw.
  destruct (step_get_spec t rd c Hw) as (evs & _ & Hcase).
  destruct Hcase as [(e & He & _ & ->)|[(Htb & ->)|[(l & Htb & Hh & ->)|(l & Htb & Hh & ->)]]].
  - split; simpl; try done.
    unfold owner, holder_state in *; simpl.
    rewrite spec_lock_snoc, <- Href. unfold spec_step. by rewrite He.
  - split; simpl.
    + intros l. rewrite lookup_insert_eq. intros [= <-]. rewrite length_app; simpl; lia.
    + intros t' w' Hw'. rewrite length_app. apply Hwl in Hw'. lia.
    + intros hs. rewrite holder_state_install. intros [= <-]. simpl. lia.
    + intros t' w' hs Hw'. rewrite holder_state_install. intros [= <-]. simpl.
      intros <-. congruence.
    + unfold owner. rewrite holder_state_install. simpl.
      rewrite spec_lock_snoc, <- Href. unfold owner. rewrite holder_state_free by done.
      done.
  - pose proof (Hlive l Htb) as Hl.
    assert (Hhs : ∀ cw ws tr rs,
        holder_state (mkConfig (<[l := increment (lookup_state c l)]> (heap c))
                        (thread_busy c) cw ws tr rs)
        = Some (increment (lookup_state c l))).
    { intros. unfold holder_state; simpl. rewrite Htb. simpl.
      by rewrite list_lookup_insert_eq. }
    pose proof (Hcnt _ (holder_state_live c l Htb Hl)) as Hc1.
    split; simpl.
    + intros l0 Hl0. rewrite length_insert. auto.
    + intros t' w' Hw'. rewrite length_insert. eauto.
    + intros hs. rewrite Hhs. intros [= <-]. simpl. lia.
    + intros t' w' hs Hw'. rewrite Hhs. intros [= <-]. simpl.
      eapply Hnh; [done|]. by apply holder_state_live.
    + unfold owner. rewrite Hhs. simpl.
      rewrite spec_lock_snoc, <- Href. rewrite (owner_live c l) by done. simpl.
      rewrite bool_decide_true by done. by rewrite Hh.
  - pose proof (Hlive l Htb) as Hl.
    split; simpl; try done.
    + intros t' w'. rewrite lookup_insert. case_decide.
      * intros [= <-]. simpl. done.
      * eauto.
    + intros t' w' hs. rewrite lookup_insert. case_decide.
      * intros [= <-]. subst t'.
        change (holder_state c = Some hs → holder_id hs ≠ t).
        rewrite (holder_state_live c l) by done. intros [= <-]. done.
      * apply Hnh.
Qed.

Lemma holder_state_core c h' cw ws tr rs :
  (∀ l, core <$> h' !! l = core <$> heap c !! l) →
  core <$> holder_state (mkConfig h' (thread_busy c) cw ws tr rs)
  = core <$> holder_state c.
Proof.
  intros Hc. unfold holder_state; simpl.
  destruct (thread_busy c !! db_key) as [l|]; simpl; [apply Hc | done].
Qed.

Lemma core_inv a b :
  core <$> a = core <$> b →
  (λ hs, (holder_id hs, reentrancy_count hs)) <$> a
  = (λ hs, (holder_id hs, reentrancy_count hs)) <$> b
  ∧ ∀ hs, a = Some hs → ∃ hs', b = Some hs' ∧ holder_id hs' = holder_id hs
                              ∧ reentrancy_count hs' = reentrancy_count hs.
Proof.
  destruct a as [x|], b as [y|]; simpl; intros [=]; [|done].
  split; [by f_equal; f_equal|]. intros hs [= <-]. eauto.
Qed.

Lemma wf_step_wake t w rd c : wf c → waiting c !! t = Some w → wf (step (ActWake t rd) c).
Proof.
  intros [Hlive Hwl Hcnt Hnh Href] Hw.
  destruct (step_wake_spec t w rd c Hw) as (h' & evs & Heff & Hcase).
  destruct (turn_effect_heap _ _ _ _ _ Heff) as [Hlen Hcore].
  destruct Hcase as [(l & chk & Hl & _ & ->)|(-> & _ & nevs & r & _ & Hacq & ->)].
  - pose proof (holder_state_core c h' (filter (λ u, u ≠ t) (cond_waiters c) ++ [t])
      (<[t := mkWaiter l (start_time w) chk (max_wait_for_exclusive_lock w)
                (warning_timeout w)]> (delete t (waiting c)))
      (trace c ++ evs ++ [(t, EvLog LInfo);
         (t, EvWait (warning_timeout w - (w_wait_now rd - chk)))])
      (results c) Hcore) as Hhs.
    apply core_inv in Hhs as [Hown Hsame].
    split; simpl.
    + intros l0 Hl0. rewrite Hlen. auto.
    + intros t' w'. rewrite Hlen, lookup_insert. case_decide.
      * intros [= <-]. simpl. destruct Hl as [->|Hl]; eauto.
      * rewrite lookup_delete_ne by done. eauto.
    + intros hs Hhs. destruct (Hsame _ Hhs) as (hs' & Hhs' & _ & <-). eauto.
    + intros t' w' hs Hw' Hhs. destruct (Hsame _ Hhs) as (hs' & Hhs' & <- & _).
      revert Hw'. rewrite lookup_insert. case_decide.
      * intros _. subst t'. eauto.
      * rewrite lookup_delete_ne by done. eauto.
    + unfold owner. rewrite Hown. exact Href.
  - split; simpl.
    + intros l. rewrite lookup_insert_eq. intros [= <-]. rewrite length_app; simpl; lia.
    + intros t' w' Hw'. rewrite length_app.
      apply lookup_delete_Some in Hw' as [_ Hw']. apply Hwl in Hw'. lia.
    + intros hs. rewrite holder_state_install. intros [= <-]. simpl. lia.
    + intros t' w' hs Hw'. rewrite holder_state_install. intros [= <-]. simpl.
      apply lookup_delete_Some in Hw' as [? _]. done.
    + unfold owner at 1. rewrite holder_state_install. simpl.
      rewrite spec_lock_snoc, <- Href. unfold spec_step. rewrite Hacq.
      unfold owner. destruct (holder_state c) as [hs|] eqn:Hhs; simpl; [|done].
      rewrite bool_decide_false; [done|]. eapply Hnh; eauto.
Qed.

Lemma wf_step_release t c : wf c → waiting c !! t = None → wf (step (ActRelease t) c).
Proof.
  intros [Hlive Hwl Hcnt Hnh Href] Hw.
  destruct (step_release_spec t c Hw Hlive)
    as [(Htb & ->)|[(l & Htb & Hh & ->)|[(l & Htb & Hh & Hc & ->)|(l & Htb & Hh & Hc & ->)]]].
  - split; simpl; try done.
    rewrite spec_lock_snoc, <- Href. done.
  - pose proof (Hlive l Htb) as Hl.
    assert (Hhs : ∀ cw ws tr rs,
        holder_state (mkConfig (heap c ++ [lookup_state c l]) (thread_busy c) cw ws tr rs)
        = holder_state c).
    { intros. unfold holder_state; simpl. rewrite Htb. simpl. by rewrite lookup_app_l. }
    split; simpl.
    + intros l0 Hl0. rewrite length_app. apply Hlive in Hl0. lia.
    + intros t' w' Hw'. rewrite length_app. apply Hwl in Hw'. lia.
    + intros hs. rewrite Hhs. auto.
    + intros t' w' hs Hw'. rewrite Hhs. eauto.
    + unfold owner at 1. rewrite Hhs. fold (owner c). rewrite spec_lock_snoc, <- Href.
      rewrite (owner_live c l) by done. simpl. by rewrite bool_decide_false.
  - pose proof (Hlive l Htb) as Hl.
    assert (Hhs : ∀ cw ws tr rs,
        holder_state (mkConfig (<[l := decrement (lookup_state c l)]>
                                  (heap c ++ [lookup_state c l]))
                        (thread_busy c) cw ws tr rs)
        = Some (decrement (lookup_state c l))).
    { intros. unfold holder_state; simpl. rewrite Htb. simpl.
      rewrite list_lookup_insert_eq; [done|]. rewrite length_app. lia. }
    split; simpl.
    + intros l0 Hl0. rewrite length_insert, length_app. apply Hlive in Hl0. lia.
    + intros t' w' Hw'. rewrite length_insert, length_app. apply Hwl in Hw'. lia.
    + intros hs. rewrite Hhs. intros [= <-]. simpl. lia.
    + intros t' w' hs Hw'. rewrite Hhs. intros [= <-]. simpl.
      eapply Hnh; [done|]. by apply holder_state_live.
    + unfold owner at 1. rewrite Hhs. simpl. rewrite spec_lock_snoc, <- Href.
      rewrite (owner_live c l) by done. simpl. rewrite bool_decide_true by done.
      rewrite bool_decide_false by lia. by rewrite Hh.
  - pose proof (Hlive l Htb) as Hl.
    pose proof (Hcnt _ (holder_state_live c l Htb Hl)) as Hc1.
    assert (Hhs : ∀ h cw ws tr rs,
        holder_state (mkConfig h (delete db_key (thread_busy c)) cw ws tr rs) = None).
    { intros. unfold holder_state; simpl. by rewrite lookup_delete_eq. }
    split; simpl.
    + intros l0. by rewrite lookup_delete_eq.
    + intros t' w' Hw'. rewrite length_insert, length_app. apply Hwl in Hw'. lia.
    + intros hs. by rewrite Hhs.
    + intros t' w' hs Hw'. by rewrite Hhs.
    + unfold owner at 1. rewrite Hhs. simpl. rewrite spec_lock_snoc, <- Href.
      rewrite (owner_live c l) by done. simpl. rewrite bool_decide_true by done.
      rewrite bool_decide_true by lia. done.
Qed.

Lemma wf_step a c : wf c → wf (step a c).
Proof.
  intros Hwf. destruct a as [t rd|t rd|t].
  - destruct (waiting c !! t) eqn:Hw; [by unfold step; rewrite Hw|].
    by apply wf_step_get.
  - destruct (waiting c !! t) as [w|] eqn:Hw; [|by unfold step; rewrite Hw].
    by eapply wf_step_wake.
  - destruct (waiting c !! t) eqn:Hw; [by unfold step; rewrite Hw|].
    by apply wf_step_release.
Qed.

Lemma run_snoc acts a c : run (acts ++ [a]) c = step a (run acts c).
Proof. unfold run. by rewrite foldl_app. Qed.

Lemma run_app a1 a2 c : run (a1 ++ a2) c = run a2 (run a1 c).
Proof. unfold run. by rewrite foldl_app. Qed.

Lemma wf_run acts c : wf c → wf (run acts c).
Proof.
  revert c. induction acts as [|a acts IH]; intros c Hwf; [done|].
  simpl. apply IH. by apply wf_step.
Qed.

(** * The claims *)

(** Readings of an undisturbed call: the process is not a slave, every
    collaborator answers, the clock shows [now]. *)
Definition calm (max_wait warn now : Z) : EnterReadings :=
  mkEnter max_wait warn (Ok false) (Ok tt) (Ok tt) now now now.

Definition calm_wake (now : Z) : WakeReadings :=
  mkWake now now now now now (Ok tt) (Ok tt) (Ok tt) (Ok "debug"%string)
    (Ok true) (Ok tt).

(** C1.  In every configuration reached from the empty table by calls of
    [get_db_lock] and [release_db_lock] (any threads, any interleaving of
    their atomic sections, any clock and collaborator behaviour, releases
    not pre-empted by an asynchronous exception): a key that is present
    points to a live entry with one holder and a count of at least 1; no two
    threads are recorded as holder; holder and count are exactly the holder
    and the net number of acquisitions (acquires minus releases) that the
    finished calls add up to; and the key is absent exactly when that net
    number is zero. *)
Theorem lock_table_invariant (acts : list action) :
  (∀ l, thread_busy (run acts init) !! db_key = Some l →
        ∃ hs, heap (run acts init) !! l = Some hs
              ∧ is_holder (run acts init) (holder_id hs)
              ∧ 1 ≤ reentrancy_count hs)
  ∧ (∀ t1 t2, is_holder (run acts init) t1 → is_holder (run acts init) t2 → t1 = t2)
  ∧ owner (run acts init) = spec_lock (results (run acts init))
  ∧ (thread_busy (run acts init) !! db_key = None
     ↔ net (spec_lock (results (run acts init))) = 0).
Proof.
  pose proof (wf_run acts init wf_init) as [Hlive Hwl Hcnt Hnh Href].
  set (c := run acts init) in *.
  split_and!.
  - intros l Htb. pose proof (Hlive l Htb) as Hl.
    pose proof (holder_state_live c l Htb Hl) as Hhs.
    exists (lookup_state c l). split_and!.
    + by apply lookup_state_live.
    + by exists (lookup_state c l).
    + by apply Hcnt.
  - intros t1 t2 (hs1 & H1 & <-) (hs2 & H2 & <-). congruence.
  - done.
  - rewrite <- Href. split.
    + intros Htb. unfold owner. by rewrite holder_state_free.
    + intros Hnet. destruct (decide (thread_busy c !! db_key = None)) as [|Hne]; [done|].
      destruct (thread_busy c !! db_key) as [l|] eqn:Htb in Hne; [|done].
      pose proof (Hlive l Htb) as Hl.
      rewrite (owner_live c l Htb Hl) in Hnet. simpl in Hnet.
      pose proof (Hcnt _ (holder_state_live c l Htb Hl)). lia.
Qed.

Lemma lock_table_invariant_witness :
  ∃ hs, heap (run [ActGet 1 (calm 120 30 0); ActGet 1 (calm 120 30 5)] init) !! 0%nat
        = Some hs
        ∧ is_holder (run [ActGet 1 (calm 120 30 0); ActGet 1 (calm 120 30 5)] init)
            (holder_id hs)
        ∧ 1 ≤ reentrancy_count hs.
Proof.
  apply (proj1 (lock_table_invariant
                  [ActGet 1 (calm 120 30 0); ActGet 1 (calm 120 30 5)]) 0%nat).
  vm_compute. reflexivity.
Defined.

(** ** Deterministic corollaries of the step lemmas *)

Lemma step_get_free t rd c :
  guard_passes rd = true → waiting c !! t = None → thread_busy c !! db_key = None →
  ∃ evs, tagged t is_guard evs
    ∧ step (ActGet t rd) c =
        mkConfig (heap c ++ [mkHolder t (e_install rd) 1 false])
          (<[db_key := length (heap c)]> (thread_busy c))
          (cond_waiters c) (waiting c)
          (trace c ++ evs ++ [(t, EvMutexEnter); (t, EvMutexExit)])
          (results c ++ [(t, CallGet, Returned)]).
Proof.
  intros Hg Hw Htb. destruct (step_get_spec t rd c Hw) as (evs & Htag & Hcase).
  exists evs. split; [done|].
  destruct Hcase as [(e & _ & Hg' & _)|[(_ & ->)|[(l & Htb' & _)|(l & Htb' & _)]]];
    congruence.
Qed.

Lemma step_get_reentrant t rd c l :
  guard_passes rd = true → waiting c !! t = None →
  thread_busy c !! db_key = Some l → holder_id (lookup_state c l) = t →
  ∃ evs, tagged t is_guard evs
    ∧ step (ActGet t rd) c =
        mkConfig (<[l := increment (lookup_state c l)]> (heap c))
          (thread_busy c) (cond_waiters c) (waiting c)
          (trace c ++ evs ++ [(t, EvMutexEnter); (t, EvMutexExit)])
          (results c ++ [(t, CallGet, Returned)]).
Proof.
  intros Hg Hw Htb Hh. destruct (step_get_spec t rd c Hw) as (evs & Htag & Hcase).
  exists evs. split; [done|].
  destruct Hcase as [(e & _ & Hg' & _)|[(Htb' & _)|[(l' & Htb' & _ & ->)|(l' & Htb' & Hh' & _)]]];
    try congruence.
Qed.

Lemma step_get_blocks t rd c l :
  guard_passes rd = true → waiting c !! t = None →
  thread_busy c !! db_key = Some l → holder_id (lookup_state c l) ≠ t →
  ∃ evs, tagged t is_guard evs
    ∧ step (ActGet t rd) c =
        mkConfig (heap c) (thread_busy c) (cond_waiters c ++ [t])
          (<[t := mkWaiter l (e_start rd) (e_start rd) (e_max_wait rd)
                    (e_warning_timeout rd)]> (waiting c))
          (trace c ++ evs ++ [(t, EvMutexEnter); (t, EvLog LInfo);
             (t, EvWait (e_warning_timeout rd - (e_wait_now rd - e_start rd)))])
          (results c).
Proof.
  intros Hg Hw Htb Hh. destruct (step_get_spec t rd c Hw) as (evs & Htag & Hcase).
  exists evs. split; [done|].
  destruct Hcase as [(e & _ & Hg' & _)|[(Htb' & _)|[(l' & Htb' & Hh' & _)|(l' & Htb' & _ & ->)]]];
    try congruence.
Qed.

Lemma step_release_keeps t c l :
  waiting c !! t = None → thread_busy c !! db_key = Some l →
  (l < length (heap c))%nat →
  holder_id (lookup_state c l) = t → 1 < reentrancy_count (lookup_state c l) →
  step (ActRelease t) c =
    mkConfig (<[l := decrement (lookup_state c l)]> (heap c ++ [lookup_state c l]))
      (thread_busy c) (cond_waiters c) (waiting c)
      (trace c ++ [(t, EvMutexEnter); (t, EvMutexExit)])
      (results c ++ [(t, CallRelease, Returned)]).
Proof.
  intros Hw Htb Hl Hh Hc.
  destruct (step_release_spec t c Hw) as [(Htb' & _)|[(l' & Htb' & Hh' & _)|
    [(l' & Htb' & _ & _ & ->)|(l' & Htb' & _ & Hc' & _)]]].
  - intros l0 Hl0. congruence.
  - congruence.
  - congruence.
  - congruence.
  - assert (l' = l) as -> by congruence. lia.
Qed.

Lemma step_release_frees t c l :
  waiting c !! t = None → thread_busy c !! db_key = Some l →
  (l < length (heap c))%nat →
  holder_id (lookup_state c l) = t → reentrancy_count (lookup_state c l) ≤ 1 →
  step (ActRelease t) c =
    mkConfig (<[l := decrement (lookup_state c l)]> (heap c ++ [lookup_state c l]))
      (delete db_key (thread_busy c)) (tail (cond_waiters c)) (waiting c)
      (trace c ++ [(t, EvMutexEnter); (t, EvNotify); (t, EvMutexExit)])
      (results c ++ [(t, CallRelease, Returned)]).
Proof.
  intros Hw Htb Hl Hh Hc.
  destruct (step_release_spec t c Hw) as [(Htb' & _)|[(l' & Htb' & Hh' & _)|
    [(l' & Htb' & _ & Hc' & _)|(l' & Htb' & _ & _ & ->)]]].
  - intros l0 Hl0. congruence.
  - congruence.
  - congruence.
  - assert (l' = l) as -> by congruence. lia.
  - congruence.
Qed.

Lemma tagged_guard_no_wait t evs u d : tagged t is_guard evs → (u, EvWait d) ∉ evs.
Proof.
  intros Htag Hin. unfold tagged in Htag. rewrite Forall_forall in Htag.
  destruct (Htag _ Hin) as [_ ?]. done.
Qed.

(** Membership in an explicit list of other events. *)
Ltac refute_elem H :=
  repeat (apply elem_of_cons in H as [H|H]; [discriminate H|]);
  by apply elem_of_nil in H.

(** C4.  One thread, starting from the free table: the first
    [get_db_lock] installs it as holder with count 1; the second one raises
    the count to 2 and returns without ever calling [wait()]; the first
    [release_db_lock] lowers the count to 1 and leaves the holder; the
    second one removes the entry and calls [notify()]. *)
Theorem reentrant_scenario (t1 : Z) (rd1 rd2 : EnterReadings) :
  guard_passes rd1 = true → guard_passes rd2 = true →
  holder_state (run [ActGet t1 rd1] init) = Some (mkHolder t1 (e_install rd1) 1 false)
  ∧ holder_state (run [ActGet t1 rd1; ActGet t1 rd2] init)
    = Some (mkHolder t1 (e_install rd1) 2 false)
  ∧ results (run [ActGet t1 rd1; ActGet t1 rd2] init)
    = [(t1, CallGet, Returned); (t1, CallGet, Returned)]
  ∧ (∀ u d, (u, EvWait d) ∉ trace (run [ActGet t1 rd1; ActGet t1 rd2] init))
  ∧ holder_state (run [ActGet t1 rd1; ActGet t1 rd2; ActRelease t1] init)
    = Some (mkHolder t1 (e_install rd1) 1 false)
  ∧ thread_busy (run [ActGet t1 rd1; ActGet t1 rd2; ActRelease t1; ActRelease t1] init)
      !! db_key = None
  ∧ trace (run [ActGet t1 rd1; ActGet t1 rd2; ActRelease t1; ActRelease t1] init)
    = trace (run [ActGet t1 rd1; ActGet t1 rd2; ActRelease t1] init)
      ++ [(t1, EvMutexEnter); (t1, EvNotify); (t1, EvMutexExit)]
  ∧ results (run [ActGet t1 rd1; ActGet t1 rd2; ActRelease t1; ActRelease t1] init)
    = [(t1, CallGet, Returned); (t1, CallGet, Returned);
       (t1, CallRelease, Returned); (t1, CallRelease, Returned)].
Proof.
  intros Hg1 Hg2. unfold run; cbn [foldl].
  destruct (step_get_free t1 rd1 init Hg1) as (e1 & Ht1 & ->); [done..|].
  cbn [heap thread_busy cond_waiters waiting trace results init length app].
  set (h1 := mkHolder t1 (e_install rd1) 1 false).
  set (c1 := mkConfig [h1] _ _ _ _ _).
  assert (Hl1 : lookup_state c1 0 = h1) by done.
  destruct (step_get_reentrant t1 rd2 c1 0%nat Hg2) as (e2 & Ht2 & ->);
    [done|done|done|].
  rewrite Hl1. cbn [heap thread_busy cond_waiters waiting trace results c1].
  set (c2 := mkConfig _ _ _ _ _ _).
  assert (Hl2 : lookup_state c2 0 = increment h1) by done.
  rewrite (step_release_keeps t1 c2 0%nat); [|done|done|simpl; lia|done|rewrite Hl2; simpl; lia].
  rewrite Hl2. cbn [heap thread_busy cond_waiters waiting trace results c2].
  set (c3 := mkConfig _ _ _ _ _ _).
  assert (Hl3 : lookup_state c3 0 = decrement (increment h1)) by done.
  rewrite (step_release_frees t1 c3 0%nat); [|done|done|simpl; lia|done|rewrite Hl3; simpl; lia].
  rewrite Hl3. cbn [heap thread_busy cond_waiters waiting trace results c3].
  assert (Hhs : ∀ c, thread_busy c = <[db_key := 0%nat]> ∅ →
                     holder_state c = heap c !! 0%nat).
  { intros c Hc. unfold holder_state. rewrite Hc, lookup_insert_eq. done. }
  split_and!.
  - by rewrite Hhs.
  - by rewrite Hhs.
  - done.
  - intros u d. rewrite !elem_of_app. intros [[H|H]|[H|H]].
    + exact (tagged_guard_no_wait _ _ _ _ Ht1 H).
    + refute_elem H.
    + exact (tagged_guard_no_wait _ _ _ _ Ht2 H).
    + refute_elem H.
  - by rewrite Hhs.
  - by rewrite lookup_delete_eq.
  - done.
  - done.
Qed.

Lemma reentrant_scenario_witness :
  holder_state (run [ActGet 7 (calm 120 30 0); ActGet 7 (calm 120 30 3)] init)
  = Some (mkHolder 7 0 2 false).
Proof.
  apply (reentrant_scenario 7 (calm 120 30 0) (calm 120 30 3)); reflexivity.
Defined.

(** C10.  Whenever an action makes the key point to an entry it did not
    point to before, that entry is a new list (no thread can hold a
    reference to it yet) whose count is 1 and whose warned flag is False;
    this covers the claim of a free key, the claim of a key just released
    and the forced takeover, which all end in line 123. *)
Theorem new_holder_state_unwarned (acts : list action) (a : action) (l : nat) :
  thread_busy (step a (run acts init)) !! db_key = Some l →
  thread_busy (run acts init) !! db_key ≠ Some l →
  (length (heap (run acts init)) ≤ l)%nat
  ∧ ∃ t now, heap (step a (run acts init)) !! l = Some (mkHolder t now 1 false).
Proof.
  pose proof (wf_run acts init wf_init) as Hwf.
  set (c := run acts init) in *. intros Hnew Hold.
  destruct a as [t rd|t rd|t].
  - destruct (waiting c !! t) as [w|] eqn:Hw.
    { unfold step in Hnew. rewrite Hw in Hnew. done. }
    destruct (step_get_spec t rd c Hw) as (evs & _ & Hcase).
    destruct Hcase as [(e & _ & _ & Hs)|[(Htb & Hs)|[(l' & Htb & _ & Hs)|(l' & Htb & _ & Hs)]]];
      rewrite Hs in Hnew |- *; simpl in *; try done.
    rewrite lookup_insert_eq in Hnew. injection Hnew as <-.
    split; [done|]. exists t, (e_install rd). by rewrite list_lookup_middle.
  - destruct (waiting c !! t) as [w|] eqn:Hw.
    2: { unfold step in Hnew. rewrite Hw in Hnew. done. }
    destruct (step_wake_spec t w rd c Hw) as (h' & evs & _ & Hcase).
    destruct Hcase as [(l' & chk & _ & _ & Hs)|(_ & _ & nevs & r & _ & _ & Hs)];
      rewrite Hs in Hnew |- *; simpl in *; try done.
    rewrite lookup_insert_eq in Hnew. injection Hnew as <-.
    split; [done|]. exists t, (w_install rd). by rewrite list_lookup_middle.
  - destruct (waiting c !! t) as [w|] eqn:Hw.
    { unfold step in Hnew. rewrite Hw in Hnew. done. }
    destruct (step_release_spec t c Hw (wf_live c Hwf))
      as [(Htb & Hs)|[(l' & Htb & _ & Hs)|[(l' & Htb & _ & _ & Hs)|(l' & Htb & _ & _ & Hs)]]];
      rewrite Hs in Hnew; simpl in *; try done.
    by rewrite lookup_delete_eq in Hnew.
Qed.

Lemma new_holder_state_unwarned_witness :
  (length (heap (run [] init)) ≤ 0)%nat
  ∧ ∃ t now, heap (step (ActGet 4 (calm 120 30 9)) (run [] init)) !! 0%nat
             = Some (mkHolder t now 1 false).
Proof.
  apply (new_holder_state_unwarned [] (ActGet 4 (calm 120 30 9)) 0%nat).
  - vm_compute. reflexivity.
  - vm_compute. discriminate.
Defined.

(** Readings of a waiter's turn in which every collaborator fails. *)
Definition all_fail (now : Z) : WakeReadings :=
  mkWake now now now now now Fails Fails Fails Fails Fails Fails.

(** Readings of a forced takeover in which every diagnostic call answers
    and the administrator's e-mailer raises. *)
Definition mail_fails (now : Z) : WakeReadings :=
  mkWake now now now now now (Ok tt) (Ok tt) (Ok tt) (Ok "debug"%string) (Ok true) Fails.

(** C5 at the failing inputs.  The role check of lines 47-51 and the
    notification of lines 125-130 are inside no [try], unlike the same
    calls at lines 72-104 and 108-116.  For every thread [t] and clock
    reading: when the role query raises, or when the process is a slave and
    capturing the caller's own stack raises, [get_db_lock] on a free table
    ends with that exception and the table stays empty, so the caller gets
    neither the lock nor a logged failure.  And in the forced takeover by
    thread 2 at time 121, with the e-mailer raising, the exception reaches
    the caller after the entry [[2, 121, 1, False]] has been written. *)
Theorem collaborator_failure_reaches_caller (t : Z) (now : Z) :
  let query_fails := mkEnter 120 30 Fails (Ok tt) (Ok tt) now now now in
  let capture_fails := mkEnter 120 30 (Ok true) Fails (Ok tt) now now now in
  let waiting2 := run [ActGet 1 (calm 120 30 0); ActGet 2 (calm 120 30 0)] init in
  (results (step (ActGet t query_fails) init)
   = [(t, CallGet, Raised (CollaboratorError EvRoleQuery))]
   ∧ holder_state (step (ActGet t query_fails) init) = None)
  ∧ (results (step (ActGet t capture_fails) init)
     = [(t, CallGet, Raised (CollaboratorError (EvFindFrame t)))]
     ∧ holder_state (step (ActGet t capture_fails) init) = None)
  ∧ (results (step (ActWake 2 (mail_fails 121)) waiting2)
     = [(1, CallGet, Returned); (2, CallGet, Raised (CollaboratorError EvEmailAdmin))]
     ∧ holder_state (step (ActWake 2 (mail_fails 121)) waiting2)
       = Some (mkHolder 2 121 1 false)).
Proof. vm_compute. done. Qed.

Lemma acquired_inv r :
  acquired r = true →
  r = Returned ∨ r = Raised (CollaboratorError EvSelectNotifier)
  ∨ r = Raised (CollaboratorError EvEmailAdmin).
Proof. destruct r as [|[| |[]]]; simpl; intros; try done; auto. Qed.

(** What the handlers of lines 72-116 do achieve.  A call whose role
    check passes never ends its first section with an exception.  In the
    waiting loop no failure of stack capture, traceback formatting,
    cancellation delivery or document rendering reaches the caller: a turn
    either parks the call again or finishes it with the caller installed as
    holder (fresh timestamp, count 1, not warned), and the only exceptions
    that can leave it come from the notification of the administrator,
    after the table was written.  When the deadline has passed for the
    observed holder the turn always finishes that way, whatever the
    collaborators did. *)
Lemma failures_contained (t : Z) (c : Config) :
  (∀ rd, waiting c !! t = None → guard_passes rd = true →
         results (step (ActGet t rd) c) = results c
         ∨ results (step (ActGet t rd) c) = results c ++ [(t, CallGet, Returned)])
  ∧ (∀ w rd, waiting c !! t = Some w →
       ((results (step (ActWake t rd) c) = results c
         ∧ is_Some (waiting (step (ActWake t rd) c) !! t)
         ∧ thread_busy (step (ActWake t rd) c) = thread_busy c)
        ∨ (∃ r, results (step (ActWake t rd) c) = results c ++ [(t, CallGet, r)]
                ∧ (r = Returned ∨ r = Raised (CollaboratorError EvSelectNotifier)
                   ∨ r = Raised (CollaboratorError EvEmailAdmin))
                ∧ waiting (step (ActWake t rd) c) !! t = None
                ∧ holder_state (step (ActWake t rd) c)
                  = Some (mkHolder t (w_install rd) 1 false)))
       ∧ (takeover_due c w rd →
          waiting (step (ActWake t rd) c) !! t = None
          ∧ holder_state (step (ActWake t rd) c)
            = Some (mkHolder t (w_install rd) 1 false))).
Proof.
  split.
  - intros rd Hw Hg. destruct (step_get_spec t rd c Hw) as (evs & _ & Hcase).
    destruct Hcase as [(e & _ & Hg' & _)|[(_ & ->)|[(l & _ & _ & ->)|(l & _ & _ & ->)]]];
      simpl; auto. congruence.
  - intros w rd Hw. destruct (step_wake_spec t w rd c Hw) as (h' & evs & _ & Hcase).
    destruct Hcase as [(l & chk & _ & Hnd & ->)|(_ & _ & nevs & r & _ & Hacq & ->)]; simpl.
    + split; [|done]. left. split_and!; [done| |done].
      rewrite lookup_insert_eq. eauto.
    + rewrite holder_state_install, lookup_delete_eq. split; [|done].
      right. exists r. split_and!; try done. by apply acquired_inv.
Qed.

Lemma failures_contained_witness :
  waiting (step (ActWake 2 (all_fail 121))
             (run [ActGet 1 (calm 120 30 0); ActGet 2 (calm 120 30 0)] init)) !! 2 = None
  ∧ holder_state (step (ActWake 2 (all_fail 121))
                    (run [ActGet 1 (calm 120 30 0); ActGet 2 (calm 120 30 0)] init))
    = Some (mkHolder 2 121 1 false).
Proof.
  refine (proj2 (proj2 (failures_contained 2
            (run [ActGet 1 (calm 120 30 0); ActGet 2 (calm 120 30 0)] init))
            (mkWaiter 0 0 0 120 30) (all_fail 121) _) _).
  - vm_compute. reflexivity.
  - exists 0%nat. vm_compute. split_and!; reflexivity.
Defined.

(** C7, as stated, fails: with two threads waiting, the release that
    drops the count to zero removes the entry but leaves the second waiter
    in the queue of the condition. *)
Lemma release_leaves_a_waiter_asleep :
  thread_busy (run [ActGet 1 (calm 120 30 0); ActGet 2 (calm 120 30 1);
                    ActGet 3 (calm 120 30 2); ActRelease 1] init) !! db_key = None
  ∧ cond_waiters (run [ActGet 1 (calm 120 30 0); ActGet 2 (calm 120 30 1);
                       ActGet 3 (calm 120 30 2)] init) = [2; 3]
  ∧ cond_waiters (run [ActGet 1 (calm 120 30 0); ActGet 2 (calm 120 30 1);
                       ActGet 3 (calm 120 30 2); ActRelease 1] init) = [3].
Proof. vm_compute. done. Qed.

(** C7, amended.  When [release_db_lock] takes the holder's count from 1
    to zero it removes the entry from the table and calls [notify()]
    exactly once: at most one thread, the first of the condition's queue,
    is taken off the queue, every other queued thread stays queued, and no
    parked call is changed.  The call returns normally. *)
Theorem release_to_zero_pops_and_notifies_one (acts : list action) (t : Z)
    (hs : HolderState) :
  holder_state (run acts init) = Some hs →
  holder_id hs = t →
  reentrancy_count hs = 1 →
  thread_busy (step (ActRelease t) (run acts init)) !! db_key = None
  ∧ cond_waiters (step (ActRelease t) (run acts init))
    = tail (cond_waiters (run acts init))
  ∧ trace (step (ActRelease t) (run acts init))
    = trace (run acts init) ++ [(t, EvMutexEnter); (t, EvNotify); (t, EvMutexExit)]
  ∧ results (step (ActRelease t) (run acts init))
    = results (run acts init) ++ [(t, CallRelease, Returned)]
  ∧ waiting (step (ActRelease t) (run acts init)) = waiting (run acts init).
Proof.
  pose proof (wf_run acts init wf_init) as Hwf.
  set (c := run acts init) in *. intros Hhs Hh Hc.
  destruct (thread_busy c !! db_key) as [l|] eqn:Htb.
  2: { by rewrite holder_state_free in Hhs. }
  pose proof (wf_live c Hwf l Htb) as Hl.
  rewrite (holder_state_live c l Htb Hl) in Hhs. injection Hhs as Hhs.
  assert (Hw : waiting c !! t = None).
  { destruct (waiting c !! t) as [w|] eqn:Hw; [|done].
    exfalso. eapply (wf_waiter_not_holder c Hwf t w); [done| |exact Hh].
    rewrite (holder_state_live c l Htb Hl). by rewrite Hhs. }
  rewrite (step_release_frees t c l); [|done|done|done|by rewrite Hhs|rewrite Hhs; lia].
  simpl. by rewrite lookup_delete_eq.
Qed.

Lemma release_to_zero_pops_and_notifies_one_witness :
  thread_busy (step (ActRelease 1)
                 (run [ActGet 1 (calm 120 30 0); ActGet 2 (calm 120 30 1)] init))
    !! db_key = None
  ∧ cond_waiters (step (ActRelease 1)
                    (run [ActGet 1 (calm 120 30 0); ActGet 2 (calm 120 30 1)] init))
    = tail (cond_waiters (run [ActGet 1 (calm 120 30 0); ActGet 2 (calm 120 30 1)] init))
  ∧ trace (step (ActRelease 1)
             (run [ActGet 1 (calm 120 30 0); ActGet 2 (calm 120 30 1)] init))
    = trace (run [ActGet 1 (calm 120 30 0); ActGet 2 (calm 120 30 1)] init)
      ++ [(1, EvMutexEnter); (1, EvNotify); (1, EvMutexExit)]
  ∧ results (step (ActRelease 1)
               (run [ActGet 1 (calm 120 30 0); ActGet 2 (calm 120 30 1)] init))
    = results (run [ActGet 1 (calm 120 30 0); ActGet 2 (calm 120 30 1)] init)
      ++ [(1, CallRelease, Returned)]
  ∧ waiting (step (ActRelease 1)
               (run [ActGet 1 (calm 120 30 0); ActGet 2 (calm 120 30 1)] init))
    = waiting (run [ActGet 1 (calm 120 30 0); ActGet 2 (calm 120 30 1)] init).
Proof.
  apply (release_to_zero_pops_and_notifies_one
           [ActGet 1 (calm 120 30 0); ActGet 2 (calm 120 30 1)] 1 (mkHolder 1 0 1 false)).
  - vm_compute. reflexivity.
  - reflexivity.
  - reflexivity.
Defined.

(** Releasing a lock that another thread holds changes neither holder nor
    count and returns normally. *)
Lemma release_by_stranger (acts : list action) (t : Z) (hs : HolderState) :
  holder_state (run acts init) = Some hs →
  holder_id hs ≠ t →
  waiting (run acts init) !! t = None →
  holder_state (step (ActRelease t) (run acts init)) = Some hs
  ∧ thread_busy (step (ActRelease t) (run acts init)) = thread_busy (run acts init)
  ∧ results (step (ActRelease t) (run acts init))
    = results (run acts init) ++ [(t, CallRelease, Returned)].
Proof.
  pose proof (wf_run acts init wf_init) as Hwf.
  set (c := run acts init) in *. intros Hhs Hh Hw.
  destruct (step_release_spec t c Hw (wf_live c Hwf))
    as [(Htb & Hs)|[(l & Htb & _ & Hs)|[(l & Htb & Hh' & _)|(l & Htb & Hh' & _)]]].
  - by rewrite holder_state_free in Hhs.
  - rewrite Hs. simpl. split_and!; try done.
    rewrite <- Hhs. unfold holder_state; simpl. rewrite Htb; simpl.
    apply lookup_app_l. by apply (wf_live c Hwf).
  - rewrite (holder_state_live c l Htb (wf_live c Hwf l Htb)) in Hhs. congruence.
  - rewrite (holder_state_live c l Htb (wf_live c Hwf l Htb)) in Hhs. congruence.
Qed.

(** C6 at the failing input: [release_db_lock] on a free table.  Line 138
    slices [None], the [TypeError] is no [RuntimeError] and reaches the
    caller; the table stays empty. *)
Theorem release_on_free_table_raises (t : Z) :
  results (step (ActRelease t) init) = [(t, CallRelease, Raised TypeError)]
  ∧ thread_busy (step (ActRelease t) init) = ∅.
Proof. done. Qed.

(** ** release_db_lock under asynchronous interruption *)

(** A table whose key is held by thread [h] with count [n]. *)
Definition held_by (h n : Z) : Config :=
  mkConfig [mkHolder h 0 n false] {[db_key := 0%nat]} [] ∅ [] [].

(** What one release by [t] should do to holder [h] with count [n]. *)
Definition released (t h n : Z) : option (Z * Z) :=
  if bool_decide (h = t)
  then (if bool_decide (n - 1 ≤ 0) then None else Some (h, n - 1))
  else Some (h, n).

(** Interruptions that arrive before the snapshot is taken or inside the
    inner [try] are undone: however many of them there are, the release
    returns normally and has decremented exactly once. *)
Lemma release_protected_region t h n sched :
  Forall (λ p, p ≠ AfterInnerTry) sched →
  ∀ c l, thread_busy c !! db_key = Some l → (l < length (heap c))%nat →
         holder_id (lookup_state c l) = h →
         reentrancy_count (lookup_state c l) = n →
         (release_db_lock sched t c).2 = Val tt
         ∧ owner (release_db_lock sched t c).1 = released t h n.
Proof.
  intros Hs. induction Hs as [|p sched Hp Hs IH]; intros c l Htb Hl Hh Hn.
  - (* undisturbed *)
    unfold release_db_lock, release_body, with_lock, try_except_runtime, interrupt_at,
      notify, released.
    unfold_monad; simpl. rewrite Htb; simpl.
    assert (Hsame : lookup_state
              (set_heap (heap c ++ [lookup_state c l])
                 (set_trace (trace c ++ [(t, EvMutexEnter)]) c)) l = lookup_state c l).
    { unfold lookup_state; simpl. by rewrite lookup_app_l. }
    change (lookup_state (set_trace (trace c ++ [(t, EvMutexEnter)]) c) l)
      with (lookup_state c l).
    rewrite !Hsame, Hh, Hn.
    case_bool_decide as Ht; simpl.
    2: { split; [done|]. unfold owner, holder_state; simpl. rewrite Htb; simpl.
         rewrite lookup_app_l by done. rewrite (lookup_state_live _ _ Hl). simpl.
         by rewrite Hh, Hn. }
    case_bool_decide as Hc; simpl.
    + split; [done|]. unfold owner, holder_state; simpl. by rewrite lookup_delete_eq.
    + split; [done|]. unfold owner, holder_state; simpl. rewrite Htb; simpl.
      rewrite list_lookup_insert_eq by (rewrite length_app; lia). simpl.
      by rewrite Hh, Hn.
  - (* interrupted at [p], then the rest of the schedule *)
    cbn [release_db_lock].
    unfold release_body, with_lock, try_except_runtime, interrupt_at, notify.
    destruct p; try done; unfold_monad; simpl.
    + (* AtEntry *)
      edestruct (IH (set_trace
                       ((((trace c ++ [(t, EvMutexEnter)]) ++ [(t, EvMutexExit)])
                         ++ [(t, EvLog LError)])) c) l) as [Hr Ho]; done.
    + (* BeforeDecrement *)
      rewrite Htb; simpl.
      set (c1 := set_thread_busy _ _).
      edestruct (IH c1 (length (heap c))) as [Hr Ho].
      { unfold c1; simpl. by rewrite lookup_insert_eq. }
      { unfold c1; simpl. rewrite length_app; simpl; lia. }
      { unfold c1, lookup_state; simpl. by rewrite list_lookup_middle. }
      { unfold c1, lookup_state; simpl. by rewrite list_lookup_middle. }
      destruct (release_db_lock sched t c1) as [c' r]. simpl in *. by subst r.
    + (* AfterDecrement *)
      rewrite Htb; simpl.
      assert (Hsame : lookup_state
                (set_heap (heap c ++ [lookup_state c l])
                   (set_trace (trace c ++ [(t, EvMutexEnter)]) c)) l = lookup_state c l).
      { unfold lookup_state; simpl. by rewrite lookup_app_l. }
      change (lookup_state (set_trace (trace c ++ [(t, EvMutexEnter)]) c) l)
        with (lookup_state c l).
      rewrite !Hsame, Hh.
      case_bool_decide as Ht; simpl.
      2: { split; [done|]. unfold released. rewrite bool_decide_false by done.
           unfold owner, holder_state; simpl. rewrite Htb; simpl.
           rewrite lookup_app_l by done. rewrite (lookup_state_live _ _ Hl). simpl.
           by rewrite Hh, Hn. }
      set (c1 := set_thread_busy _ _).
      edestruct (IH c1 (length (heap c))) as [Hr Ho].
      { unfold c1; simpl. by rewrite lookup_insert_eq. }
      { unfold c1; simpl. rewrite length_insert, length_app; simpl; lia. }
      { unfold c1, lookup_state; simpl.
        rewrite list_lookup_insert_ne by lia. by rewrite list_lookup_middle. }
      { unfold c1, lookup_state; simpl.
        rewrite list_lookup_insert_ne by lia. by rewrite list_lookup_middle. }
      destruct (release_db_lock sched t c1) as [c' r]. simpl in *. by subst r.
    + (* AfterPop *)
      rewrite Htb; simpl.
      assert (Hsame : lookup_state
                (set_heap (heap c ++ [lookup_state c l])
                   (set_trace (trace c ++ [(t, EvMutexEnter)]) c)) l = lookup_state c l).
      { unfold lookup_state; simpl. by rewrite lookup_app_l. }
      change (lookup_state (set_trace (trace c ++ [(t, EvMutexEnter)]) c) l)
        with (lookup_state c l).
      rewrite !Hsame, Hh, Hn.
      case_bool_decide as Ht; simpl.
      2: { split; [done|]. unfold released. rewrite bool_decide_false by done.
           unfold owner, holder_state; simpl. rewrite Htb; simpl.
           rewrite lookup_app_l by done. rewrite (lookup_state_live _ _ Hl). simpl.
           by rewrite Hh, Hn. }
      case_bool_decide as Hc; simpl.
      2: { split; [done|]. unfold released. rewrite bool_decide_true by done.
           rewrite bool_decide_false by done.
           unfold owner, holder_state; simpl. rewrite Htb; simpl.
           rewrite list_lookup_insert_eq by (rewrite length_app; lia). simpl.
           by rewrite Hh, Hn. }
      set (c1 := set_thread_busy _ _).
      edestruct (IH c1 (length (heap c))) as [Hr Ho].
      { unfold c1; simpl. by rewrite lookup_insert_eq. }
      { unfold c1; simpl. rewrite length_insert, length_app; simpl; lia. }
      { unfold c1, lookup_state; simpl.
        rewrite list_lookup_insert_ne by lia. by rewrite list_lookup_middle. }
      { unfold c1, lookup_state; simpl.
        rewrite list_lookup_insert_ne by lia. by rewrite list_lookup_middle. }
      destruct (release_db_lock sched t c1) as [c' r]. simpl in *. by subst r.
    + (* AfterNotify *)
      rewrite Htb; simpl.
      assert (Hsame : lookup_state
                (set_heap (heap c ++ [lookup_state c l])
                   (set_trace (trace c ++ [(t, EvMutexEnter)]) c)) l = lookup_state c l).
      { unfold lookup_state; simpl. by rewrite lookup_app_l. }
      change (lookup_state (set_trace (trace c ++ [(t, EvMutexEnter)]) c) l)
        with (lookup_state c l).
      rewrite !Hsame, Hh, Hn.
      case_bool_decide as Ht; simpl.
      2: { split; [done|]. unfold released. rewrite bool_decide_false by done.
           unfold owner, holder_state; simpl. rewrite Htb; simpl.
           rewrite lookup_app_l by done. rewrite (lookup_state_live _ _ Hl). simpl.
           by rewrite Hh, Hn. }
      case_bool_decide as Hc; simpl.
      2: { split; [done|]. unfold released. rewrite bool_decide_true by done.
           rewrite bool_decide_false by done.
           unfold owner, holder_state; simpl. rewrite Htb; simpl.
           rewrite list_lookup_insert_eq by (rewrite length_app; lia). simpl.
           by rewrite Hh, Hn. }
      set (c1 := set_thread_busy _ _).
      edestruct (IH c1 (length (heap c))) as [Hr Ho].
      { unfold c1; simpl. by rewrite lookup_insert_eq. }
      { unfold c1; simpl. rewrite length_insert, length_app; simpl; lia. }
      { unfold c1, lookup_state; simpl.
        rewrite list_lookup_insert_ne by lia. by rewrite list_lookup_middle. }
      { unfold c1, lookup_state; simpl.
        rewrite list_lookup_insert_ne by lia. by rewrite list_lookup_middle. }
      destruct (release_db_lock sched t c1) as [c' r]. simpl in *. by subst r.
Qed.

(** C3 at the failing input.  Thread 1 holds the key with count 2 and
    releases once; a [RuntimeError] arrives after the inner [try] has
    finished, while the [with] block is being left (still inside the outer
    [try]).  Nothing is rolled back: the outer handler calls
    [release_db_lock] again, the count is decremented a second time and the
    entry disappears, where one release should have left count 1.  With
    count 1 the retry finds the table empty and its [TypeError] reaches the
    caller. *)
Theorem interrupted_release_decrements_twice :
  (release_db_lock [AfterInnerTry] 1 (held_by 1 2)).2 = Val tt
  ∧ owner (release_db_lock [AfterInnerTry] 1 (held_by 1 2)).1 = None
  ∧ released 1 1 2 = Some (1, 1)
  ∧ (release_db_lock [AfterInnerTry] 1 (held_by 1 1)).2 = Exc TypeError.
Proof. vm_compute. done. Qed.

(** The run behind C2: thread 1 takes the lock at time 0 and thread 2 asks
    for it at time 0 with [max_wait] 120 and [warning_timeout] 100.  At
    time 100 thread 1 releases and thread 3 takes the lock before thread 2
    is back under the mutex; thread 2 wakes, sees the new holder and waits
    again; its timed wait expires at time 200. *)
Definition handover : list action :=
  [ActGet 1 (calm 120 100 0); ActGet 2 (calm 120 100 0); ActRelease 1;
   ActGet 3 (calm 120 100 100); ActWake 2 (calm_wake 100)].

(** C2 at the failing input.  When thread 2 sees the new holder it takes
    the new list as [busy_op] and resets [check_start_time] to 100, but
    [start_time] stays 0.  At time 200 thread 3 has held the lock, and has
    been observed by thread 2, for 100 <= 120 seconds; the test of line 71
    compares 200 - 0 with 120, so thread 2 raises [RuntimeError] in thread 3
    and takes the lock. *)
Theorem takeover_before_holder_exceeds_max_wait :
  holder_state (run handover init) = Some (mkHolder 3 100 1 false)
  ∧ waiting (run handover init) !! 2 = Some (mkWaiter 2 0 100 120 100)
  ∧ 200 - 100 ≤ 120
  ∧ holder_state (step (ActWake 2 (calm_wake 200)) (run handover init))
    = Some (mkHolder 2 200 1 false)
  ∧ drop (length (trace (run handover init)))
      (trace (step (ActWake 2 (calm_wake 200)) (run handover init)))
    = [(2, EvFindFrame 3); (2, EvFormatTraceback); (2, EvLog LError); (2, EvLog LInfo);
       (2, EvAsyncRaise 3); (2, EvRender); (2, EvMutexExit);
       (2, EvSelectNotifier); (2, EvEmailAdmin)]
  ∧ results (step (ActWake 2 (calm_wake 200)) (run handover init))
    = [(1, CallGet, Returned); (1, CallRelease, Returned); (3, CallGet, Returned);
       (2, CallGet, Returned)].
Proof. vm_compute. split_and!; done. Qed.

(** ** The timeout warning *)

(** Number of timeout warnings (line 112) of thread [t] in a trace. *)
Definition warnings_of (t : Z) (tr : list (Z * event)) : nat :=
  length (filter (λ e, e = (t, EvLog LWarning)) tr).

(** The events an action adds to the trace. *)
Definition new_events (a : action) (c : Config) : list (Z * event) :=
  drop (length (trace c)) (trace (step a c)).

(** Thread [t] is parked in [wait()] with the list at [l] as its
    [busy_op]: the holder episode it is currently waiting on. *)
Definition observing (c : Config) (t : Z) (l : nat) : bool :=
  bool_decide (busy_op <$> waiting c !! t = Some l).

(** Warnings that [t] emits along a run while it observes the list [l]. *)
Fixpoint episode_warnings (t : Z) (l : nat) (acts : list action) (c : Config) : nat :=
  match acts with
  | [] => 0
  | a :: rest =>
      ((if observing c t l then warnings_of t (new_events a c) else 0)
       + episode_warnings t l rest (step a c))%nat
  end.

Lemma warnings_of_app t e1 e2 :
  warnings_of t (e1 ++ e2) = (warnings_of t e1 + warnings_of t e2)%nat.
Proof. unfold warnings_of. by rewrite filter_app, length_app. Qed.

Lemma warnings_of_tagged t u (P : event → bool) evs :
  P (EvLog LWarning) = false → tagged u P evs → warnings_of t evs = 0%nat.
Proof.
  intros HP Htag. unfold warnings_of.
  induction Htag as [|[u' ev] evs [_ Hev] _ IH]; [done|].
  rewrite filter_cons_False; [done|].
  intros [= -> ->]. simpl in Hev. congruence.
Qed.

Lemma new_events_app (c : Config) a X : trace (step a c) = trace c ++ X → new_events a c = X.
Proof. intros H. unfold new_events. rewrite H. apply drop_app_length. Qed.

Lemma new_events_idle (c : Config) a : step a c = c → new_events a c = [].
Proof. intros H. unfold new_events. rewrite H. apply drop_all. Qed.

Lemma lookup_state_insert (h : list HolderState) l x cw tb ws tr rs :
  (l < length h)%nat →
  lookup_state (mkConfig (<[l := x]> h) tb cw ws tr rs) l = x.
Proof. intros Hl. unfold lookup_state; simpl. by rewrite list_lookup_insert_eq. Qed.

(** What an action does to the warned flag of a live list: it never clears
    it, and the list stays live. *)
Lemma flag_step a c l :
  wf c → (l < length (heap c))%nat → warned (lookup_state c l) = true →
  (l < length (heap (step a c)))%nat ∧ warned (lookup_state (step a c) l) = true.
Proof.
  intros Hwf Hl Hfl.
  assert (Happ : ∀ x tb cw ws tr rs,
    lookup_state (mkConfig (heap c ++ [x]) tb cw ws tr rs) l = lookup_state c l).
  { intros. unfold lookup_state; simpl. by rewrite lookup_app_l. }
  assert (Hins : ∀ h l' f tb cw ws tr rs,
    (∀ hs, warned (f hs) = true ↔ warned hs = true ∨ f = mark_warned) →
    length h = length (heap c) ∨ length h = S (length (heap c)) →
    default inhabitant (h !! l) = lookup_state c l →
    warned (lookup_state (mkConfig (<[l' := f (default inhabitant (h !! l'))]> h)
                            tb cw ws tr rs) l) = true).
  { intros h l' f tb cw ws tr rs Hf Hlen Hh. unfold lookup_state at 1; cbn [heap].
    destruct (decide (l' = l)) as [->|Hne].
    - rewrite list_lookup_insert_eq by lia. cbn [default from_option id].
      apply Hf. left. by rewrite Hh.
    - rewrite list_lookup_insert_ne by done. by rewrite Hh. }
  destruct a as [t rd|t rd|t].
  - destruct (waiting c !! t) as [w|] eqn:Hw.
    { unfold step. by rewrite Hw. }
    destruct (step_get_spec t rd c Hw) as (evs & _ & Hcase).
    destruct Hcase as [(e & _ & _ & ->)|[(Htb & ->)|[(l' & Htb & _ & ->)|(l' & Htb & _ & ->)]]];
      simpl; try done.
    + rewrite Happ, length_app. split; [lia|done].
    + rewrite length_insert. split; [done|].
      apply (Hins (heap c) l' increment); [|by left|done].
      intros hs; simpl. split; [by left|]. intros [?|Heq]; [done|].
      by apply (f_equal (λ g, reentrancy_count (g (mkHolder 0 0 0 false)))) in Heq.
  - destruct (waiting c !! t) as [w|] eqn:Hw.
    2: { unfold step. by rewrite Hw. }
    destruct (step_wake_spec t w rd c Hw) as (h' & evs & Heff & Hcase).
    destruct Hcase as [(l' & chk & _ & _ & ->)|(-> & _ & nevs & r & _ & _ & ->)]; simpl.
    + destruct Heff as [[-> _]|(_ & -> & _)]; [done|].
      rewrite length_insert. split; [done|].
      apply (Hins (heap c) (busy_op w) mark_warned); [|by left|done].
      intros hs; simpl. split; [by right|done].
    + rewrite Happ, length_app. split; [lia|done].
  - destruct (waiting c !! t) as [w|] eqn:Hw.
    { unfold step. by rewrite Hw. }
    assert (Hdec : ∀ l' tb cw ws tr rs, (l' < length (heap c))%nat →
      warned (lookup_state (mkConfig (<[l' := decrement (lookup_state c l')]>
                                        (heap c ++ [lookup_state c l']))
                              tb cw ws tr rs) l) = true).
    { intros l' tb cw ws tr rs Hl'. unfold lookup_state at 1; simpl.
      destruct (decide (l' = l)) as [->|Hne].
      - rewrite list_lookup_insert_eq by (rewrite length_app; lia). done.
      - rewrite list_lookup_insert_ne by done. rewrite lookup_app_l by done. done. }
    destruct (step_release_spec t c Hw (wf_live c Hwf))
      as [(Htb & ->)|[(l' & Htb & _ & ->)|[(l' & Htb & _ & _ & ->)|(l' & Htb & _ & _ & ->)]]];
      simpl; try done.
    + rewrite Happ, length_app. split; [lia|done].
    + rewrite length_insert, length_app. split; [lia|].
      apply Hdec. by apply (wf_live c Hwf).
    + rewrite length_insert, length_app. split; [lia|].
      apply Hdec. by apply (wf_live c Hwf).
Qed.

(** An action logs at most one warning of [t]; if it logs one while [t]
    observes [l], the flag of [l] was clear before and is set after. *)
Lemma warn_step a c t l :
  wf c →
  (warnings_of t (new_events a c) ≤ 1)%nat
  ∧ (observing c t l = true → warnings_of t (new_events a c) ≠ 0%nat →
     warned (lookup_state c l) = false
     ∧ (l < length (heap (step a c)))%nat
     ∧ warned (lookup_state (step a c) l) = true).
Proof.
  intros Hwf.
  assert (Hnone : ∀ X, warnings_of t X = 0%nat →
    (warnings_of t X ≤ 1)%nat
    ∧ (observing c t l = true → warnings_of t X ≠ 0%nat →
       warned (lookup_state c l) = false
       ∧ (l < length (heap (step a c)))%nat
       ∧ warned (lookup_state (step a c) l) = true)).
  { intros X ->. split; [lia|done]. }
  destruct a as [u rd|u rd|u].
  - destruct (waiting c !! u) as [w|] eqn:Hw.
    { rewrite new_events_idle by (unfold step; by rewrite Hw). by apply Hnone. }
    destruct (step_get_spec u rd c Hw) as (evs & Htag & Hcase).
    pose proof (warnings_of_tagged t u is_guard evs eq_refl Htag) as Hev.
    destruct Hcase as [(e & _ & _ & Hs)|[(Htb & Hs)|[(l' & Htb & _ & Hs)|(l' & Htb & _ & Hs)]]];
      erewrite new_events_app by (rewrite Hs; reflexivity);
      apply Hnone; rewrite ?warnings_of_app, Hev; simpl;
      unfold warnings_of; rewrite ?filter_cons_False by (intros [=]); done.
  - destruct (waiting c !! u) as [w|] eqn:Hw.
    2: { rewrite new_events_idle by (unfold step; by rewrite Hw). by apply Hnone. }
    destruct (step_wake_spec u w rd c Hw) as (h' & evs & Heff & Hcase).
    destruct Hcase as [(l' & chk & _ & _ & Hs)|(-> & Htag & nevs & r & Hntag & _ & Hs)].
    2: { erewrite new_events_app by (rewrite Hs; reflexivity). apply Hnone.
         rewrite warnings_of_app, (warnings_of_tagged t u is_diag evs eq_refl Htag).
         change ((u, EvMutexExit) :: nevs) with ([(u, EvMutexExit)] ++ nevs).
         rewrite warnings_of_app, (warnings_of_tagged t u is_notif nevs eq_refl Hntag).
         unfold warnings_of. rewrite filter_cons_False by (intros [=]). done. }
    erewrite new_events_app by (rewrite Hs; reflexivity).
    assert (Htail : ∀ d, warnings_of t [(u, EvLog LInfo); (u, EvWait d)] = 0%nat).
    { intros d. unfold warnings_of. by rewrite !filter_cons_False by (intros [=]). }
    destruct Heff as [[-> Htag]|(Hfl & -> & e1 & e2 & -> & H1 & H2)].
    { apply Hnone.
      by rewrite warnings_of_app, (warnings_of_tagged t u is_diag evs eq_refl Htag), Htail. }
    match goal with |- context [warnings_of t ?X] =>
      assert (Hcnt : warnings_of t X = warnings_of t [(u, EvLog LWarning)])
    end.
    { rewrite !warnings_of_app, Htail.
      change ((u, EvLog LWarning) :: e2) with ([(u, EvLog LWarning)] ++ e2).
      rewrite warnings_of_app,
        (warnings_of_tagged t u is_diag e1 eq_refl H1),
        (warnings_of_tagged t u is_diag e2 eq_refl H2). lia. }
    rewrite Hcnt. clear Hcnt.
    destruct (decide (u = t)) as [->|Hne].
    2: { apply Hnone. unfold warnings_of.
         rewrite filter_cons_False by (intros [=]; done). done. }
    unfold warnings_of. rewrite !filter_cons_True by done.
    rewrite filter_nil. cbn [length].
    split; [lia|]. intros Hobs _.
    unfold observing in Hobs. apply bool_decide_eq_true in Hobs.
    rewrite Hw in Hobs. simpl in Hobs. injection Hobs as <-.
    pose proof (wf_waiter_live c Hwf t w Hw) as Hlive.
    rewrite Hs. simpl. rewrite length_insert.
    split_and!; [done|done|]. by rewrite lookup_state_insert.
  - destruct (waiting c !! u) as [w|] eqn:Hw.
    { rewrite new_events_idle by (unfold step; by rewrite Hw). by apply Hnone. }
    destruct (step_release_spec u c Hw (wf_live c Hwf))
      as [(Htb & Hs)|[(l' & Htb & _ & Hs)|[(l' & Htb & _ & _ & Hs)|(l' & Htb & _ & _ & Hs)]]];
      erewrite new_events_app by (rewrite Hs; reflexivity);
      apply Hnone; unfold warnings_of; rewrite ?filter_cons_False by (intros [=]); done.
Qed.

(** Once the flag of [l] is set, nobody observing [l] warns again. *)
Lemma episode_warnings_flagged t l acts :
  ∀ c, wf c → (l < length (heap c))%nat → warned (lookup_state c l) = true →
       episode_warnings t l acts c = 0%nat.
Proof.
  induction acts as [|a acts IH]; intros c Hwf Hl Hfl; [done|].
  cbn [episode_warnings].
  destruct (flag_step a c l Hwf Hl Hfl) as [Hl' Hfl'].
  rewrite (IH (step a c)) by (done || by apply wf_step).
  destruct (observing c t l) eqn:Hobs; [|done].
  destruct (warn_step a c t l Hwf) as [_ Hw].
  destruct (decide (warnings_of t (new_events a c) = 0%nat)) as [->|Hne]; [done|].
  destruct (Hw Hobs Hne) as [? _]. congruence.
Qed.

Lemma episode_warnings_bound t l acts :
  ∀ c, wf c → (episode_warnings t l acts c ≤ 1)%nat.
Proof.
  induction acts as [|a acts IH]; intros c Hwf; [simpl; lia|].
  cbn [episode_warnings].
  pose proof (IH (step a c) (wf_step a c Hwf)) as Hrest.
  destruct (observing c t l) eqn:Hobs; [|lia].
  destruct (warn_step a c t l Hwf) as [Hle Hw].
  destruct (decide (warnings_of t (new_events a c) = 0%nat)) as [->|Hne]; [lia|].
  destruct (Hw Hobs Hne) as (_ & Hl' & Hfl').
  rewrite (episode_warnings_flagged t l acts (step a c)) by (done || by apply wf_step).
  lia.
Qed.

(** C8.  From any reachable configuration and along any continuation, a
    waiter logs the timeout warning at most once while it observes one and
    the same holder entry, however many turns of the loop it takes; and the
    turn that logs it found the warned flag of that entry clear and leaves
    it set. *)
Theorem warning_at_most_once (pre acts : list action) (t : Z) (l : nat) :
  (episode_warnings t l acts (run pre init) ≤ 1)%nat
  ∧ ∀ a, observing (run pre init) t l = true →
         warnings_of t (new_events a (run pre init)) ≠ 0%nat →
         warned (lookup_state (run pre init) l) = false
         ∧ warned (lookup_state (step a (run pre init)) l) = true.
Proof.
  pose proof (wf_run pre init wf_init) as Hwf. split.
  - by apply episode_warnings_bound.
  - intros a Hobs Hne.
    destruct (warn_step a (run pre init) t l Hwf) as [_ Hw].
    destruct (Hw Hobs Hne) as (? & _ & ?). done.
Qed.

Lemma warning_at_most_once_witness :
  warned (lookup_state (run [ActGet 1 (calm 120 30 0); ActGet 2 (calm 120 30 0)] init) 0)
  = false
  ∧ warned (lookup_state
              (step (ActWake 2 (calm_wake 31))
                 (run [ActGet 1 (calm 120 30 0); ActGet 2 (calm 120 30 0)] init)) 0)
    = true.
Proof.
  apply (proj2 (warning_at_most_once
                  [ActGet 1 (calm 120 30 0); ActGet 2 (calm 120 30 0)] [] 2 0%nat)
           (ActWake 2 (calm_wake 31))).
  - vm_compute. reflexivity.
  - vm_compute. discriminate.
Defined.

(** ** Where the mutex is held *)

Definition mutex_delta (ev : event) : Z :=
  match ev with
  | EvMutexEnter => 1
  | EvMutexExit => -1
  | _ => 0
  end.

(** How many [with (database_write_lock)] blocks thread [t] is inside after
    the events [tr].  A thread that is inside one and running (not blocked
    in [wait()]) holds the mutex. *)
Definition mutex_depth (t : Z) (tr : list (Z * event)) : Z :=
  foldr (λ e d, (if bool_decide (e.1 = t) then mutex_delta e.2 else 0) + d) 0 tr.

(** Calls made after the [with] block, and calls made inside the [try] of
    the forced takeover. *)
Definition after_lock (ev : event) : bool :=
  match ev with EvSelectNotifier | EvEmailAdmin => true | _ => false end.

Definition under_lock (ev : event) : bool :=
  match ev with EvAsyncRaise _ | EvRender => true | _ => false end.

(** Every notification call in [tr] is made at depth 0 and every
    cancellation or rendering call at depth 1; [d0] is the depth at which
    [tr] starts. *)
Definition placed (d0 : Z → Z) (tr : list (Z * event)) : Prop :=
  ∀ i t ev, tr !! i = Some (t, ev) →
    (after_lock ev = true → d0 t + mutex_depth t (take i tr) = 0)
    ∧ (under_lock ev = true → d0 t + mutex_depth t (take i tr) = 1).

Lemma mutex_depth_app t a b :
  mutex_depth t (a ++ b) = mutex_depth t a + mutex_depth t b.
Proof. unfold mutex_depth. induction a as [|e a IH]; simpl; lia. Qed.

Lemma mutex_depth_neutral t u (P : event → bool) evs :
  (∀ ev, P ev = true → mutex_delta ev = 0) → tagged u P evs → mutex_depth t evs = 0.
Proof.
  intros HP Htag. induction Htag as [|[u' ev] evs [_ Hev] _ IH]; [done|].
  simpl in *. unfold mutex_depth in *. simpl. rewrite IH.
  case_bool_decide; [rewrite HP by done|]; lia.
Qed.

Lemma mutex_depth_other t u (P : event → bool) evs :
  t ≠ u → tagged u P evs → mutex_depth t evs = 0.
Proof.
  intros Hne Htag. induction Htag as [|[u' ev] evs [Hu _] _ IH]; [done|].
  simpl in *. unfold mutex_depth in *. simpl. rewrite IH.
  rewrite bool_decide_false by congruence. lia.
Qed.

Lemma tagged_take t P n evs : tagged t P evs → tagged t P (take n evs).
Proof. apply Forall_take. Qed.

Lemma tagged_lookup t P evs i u ev :
  tagged t P evs → evs !! i = Some (u, ev) → u = t ∧ P ev = true.
Proof.
  intros Htag Hi. unfold tagged in Htag. rewrite Forall_lookup in Htag.
  apply (Htag i (u, ev) Hi).
Qed.

(** Extending a trace by the events [X] of one action. *)
Lemma placed_app tr X :
  placed (λ _, 0) tr →
  placed (λ t, mutex_depth t tr) X →
  placed (λ _, 0) (tr ++ X).
Proof.
  intros Htr HX i t ev Hi. apply lookup_app_Some in Hi as [Hi|[Hge Hi]].
  - rewrite take_app_le by (apply lookup_lt_Some in Hi; lia). by apply Htr.
  - rewrite take_app_ge by done. rewrite mutex_depth_app.
    destruct (HX _ _ _ Hi) as [H1 H2]. split; intros H; [apply H1 in H|apply H2 in H]; lia.
Qed.

(** A block of events that are neither notification nor takeover calls. *)
Lemma placed_plain d0 t (P : event → bool) evs :
  (∀ ev, P ev = true → after_lock ev = false ∧ under_lock ev = false) →
  tagged t P evs → placed d0 evs.
Proof.
  intros HP Htag i u ev Hi.
  destruct (tagged_lookup _ _ _ _ _ _ Htag Hi) as [_ Hev].
  destruct (HP _ Hev) as [-> ->]. done.
Qed.

Lemma placed_app_plain d0 t (P : event → bool) A B :
  (∀ ev, P ev = true → after_lock ev = false ∧ mutex_delta ev = 0) →
  tagged t P A →
  (∀ ev, P ev = true → under_lock ev = true → d0 t = 1) →
  placed d0 B →
  placed d0 (A ++ B).
Proof.
  intros HP HA Hd HB i u ev Hi.
  assert (Hneutral : ∀ n v, mutex_depth v (take n A) = 0).
  { intros n v. apply (mutex_depth_neutral v t P); [|by apply tagged_take].
    intros e He. by apply HP. }
  apply lookup_app_Some in Hi as [Hi|[Hge Hi]].
  - destruct (tagged_lookup _ _ _ _ _ _ HA Hi) as [-> Hev].
    rewrite take_app_le by (apply lookup_lt_Some in Hi; lia).
    rewrite Hneutral. destruct (HP _ Hev) as [-> _].
    split; [done|]. intros Hu. rewrite (Hd _ Hev Hu). lia.
  - rewrite take_app_ge by done. rewrite mutex_depth_app.
    pose proof (Hneutral (length A) u) as HA0. rewrite firstn_all in HA0.
    destruct (HB _ _ _ Hi) as [H1 H2].
    split; intros H; [apply H1 in H|apply H2 in H]; lia.
Qed.

Definition any_event (ev : event) : bool := true.

Definition is_plain (ev : event) : bool := negb (after_lock ev) && negb (under_lock ev).

(** The body of a waiter's turn: diagnostics and possibly the warning. *)
Definition is_body (ev : event) : bool :=
  is_diag ev || bool_decide (ev = EvLog LWarning).

Lemma turn_effect_body t w c h' evs : turn_effect t w c h' evs → tagged t is_body evs.
Proof.
  assert (Hw : ∀ e, tagged t is_diag e → tagged t is_body e).
  { intros e. apply tagged_weaken. intros ev Hev. unfold is_body. by rewrite Hev. }
  intros [[_ Htag]|(_ & _ & e1 & e2 & -> & H1 & H2)]; [by apply Hw|].
  apply tagged_app; [by apply Hw|]. apply Forall_cons_2; [done|by apply Hw].
Qed.

Lemma mutex_depth_by t u (P : event → bool) X :
  tagged u P X → mutex_depth t X = if bool_decide (t = u) then mutex_depth u X else 0.
Proof.
  intros Htag. case_bool_decide as Htu; [by subst|].
  by apply (mutex_depth_other t u P).
Qed.

Lemma placed_exit_notif d0 u nevs :
  d0 u = 1 → tagged u is_notif nevs → placed d0 ((u, EvMutexExit) :: nevs).
Proof.
  intros Hd Htag [|k] t ev Hi; simpl in Hi.
  - injection Hi as <- <-. done.
  - destruct (tagged_lookup _ _ _ _ _ _ Htag Hi) as [-> Hev].
    assert (Hn : mutex_depth u (take k nevs) = 0).
    { apply (mutex_depth_neutral u u is_notif); [|by apply tagged_take].
      by intros [[]| | | | | | | | | | |]. }
    split.
    + intros _. cbn [take]. unfold mutex_depth in *. simpl.
      rewrite bool_decide_true by done. simpl. lia.
    + destruct ev as [[]| | | | | | | | | | |]; done.
Qed.

(** In every reachable configuration a thread is inside the [with] block
    exactly when it is parked in the waiting loop, and the calls are placed
    as [placed] says. *)
Definition depth_inv (c : Config) : Prop :=
  (∀ t, mutex_depth t (trace c) = match waiting c !! t with Some _ => 1 | None => 0 end)
  ∧ placed (λ _, 0) (trace c).

Lemma depth_inv_extend c c' u X (P : event → bool) (d : Z) :
  depth_inv c →
  trace c' = trace c ++ X →
  tagged u P X →
  mutex_depth u X = d →
  (∀ t, t ≠ u → waiting c' !! t = waiting c !! t) →
  match waiting c !! u with Some _ => 1 | None => 0 end + d
    = match waiting c' !! u with Some _ => 1 | None => 0 end →
  placed (λ t, mutex_depth t (trace c)) X →
  depth_inv c'.
Proof.
  intros [Hd Hp] Htr Htag HdX Hother Hu HpX. split.
  - intros t. rewrite Htr, mutex_depth_app, Hd, (mutex_depth_by t u P X Htag).
    case_bool_decide as Htu.
    + subst t. rewrite HdX. done.
    + rewrite Hother by done. lia.
  - rewrite Htr. by apply placed_app.
Qed.

Lemma depth_inv_step a c : wf c → depth_inv c → depth_inv (step a c).
Proof.
  intros Hwf Hinv. pose proof Hinv as [Hd Hp].
  assert (Hguard : ∀ u evs, tagged u is_guard evs → tagged u is_plain evs
                             ∧ mutex_depth u evs = 0).
  { intros u evs Htag. split.
    - eapply tagged_weaken; [|exact Htag]. by intros [[]| | | | | | | | | | |].
    - apply (mutex_depth_neutral u u is_guard); [|done].
      by intros [[]| | | | | | | | | | |]. }
  assert (Hplain : ∀ d0 u X, tagged u is_plain X → placed d0 X).
  { intros d0 u X. apply placed_plain. intros ev Hev. unfold is_plain in Hev.
    apply andb_true_iff in Hev as [H1 H2].
    apply negb_true_iff in H1, H2. done. }
  destruct a as [u rd|u rd|u].
  - destruct (waiting c !! u) as [w|] eqn:Hw.
    { unfold step. by rewrite Hw. }
    destruct (step_get_spec u rd c Hw) as (evs & Htag & Hcase).
    destruct (Hguard _ _ Htag) as [Hpl Hd0].
    destruct Hcase as [(e & _ & _ & ->)|[(Htb & ->)|[(l & Htb & _ & ->)|(l & Htb & _ & ->)]]].
    + eapply (depth_inv_extend c _ u evs is_plain 0); simpl; eauto.
      by rewrite Hw.
    + eapply (depth_inv_extend c _ u _ is_plain 0); simpl; eauto.
      * apply tagged_app; [done|tagged_list].
      * rewrite mutex_depth_app, Hd0. unfold mutex_depth; simpl.
        rewrite !bool_decide_true by done. done.
      * by rewrite Hw.
      * eapply Hplain. apply tagged_app; [done|tagged_list].
    + eapply (depth_inv_extend c _ u _ is_plain 0); simpl; eauto.
      * apply tagged_app; [done|tagged_list].
      * rewrite mutex_depth_app, Hd0. unfold mutex_depth; simpl.
        rewrite !bool_decide_true by done. done.
      * by rewrite Hw.
      * eapply Hplain. apply tagged_app; [done|tagged_list].
    + eapply (depth_inv_extend c _ u _ is_plain 1); simpl; eauto.
      * apply tagged_app; [done|tagged_list].
      * rewrite mutex_depth_app, Hd0. unfold mutex_depth; simpl.
        rewrite !bool_decide_true by done. done.
      * intros t Hne. by rewrite lookup_insert_ne.
      * by rewrite Hw, lookup_insert_eq.
      * eapply Hplain. apply tagged_app; [done|tagged_list].
  - destruct (waiting c !! u) as [w|] eqn:Hw.
    2: { unfold step. by rewrite Hw. }
    destruct (step_wake_spec u w rd c Hw) as (h' & evs & Heff & Hcase).
    pose proof (turn_effect_body _ _ _ _ _ Heff) as Hbody.
    assert (Hb0 : mutex_depth u evs = 0).
    { apply (mutex_depth_neutral u u is_body); [|done].
      intros [[]| | | | | | | | | | |]; done. }
    assert (Hdu : mutex_depth u (trace c) = 1) by (by rewrite Hd, Hw).
    assert (Hbp : ∀ B, placed (λ t, mutex_depth t (trace c)) B →
                       placed (λ t, mutex_depth t (trace c)) (evs ++ B)).
    { intros B HB. apply (placed_app_plain _ u is_body); try done.
      intros [[]| | | | | | | | | | |]; done. }
    destruct Hcase as [(l & chk & _ & _ & ->)|(_ & _ & nevs & r & Hntag & _ & ->)].
    + eapply (depth_inv_extend c _ u _ any_event 0); simpl; eauto.
      * apply tagged_app; [|tagged_list].
        eapply tagged_weaken; [|exact Hbody]. done.
      * rewrite mutex_depth_app, Hb0. unfold mutex_depth; simpl.
        rewrite !bool_decide_true by done. done.
      * intros t Hne. rewrite lookup_insert_ne by done. by rewrite lookup_delete_ne.
      * by rewrite Hw, lookup_insert_eq.
      * apply Hbp. apply (Hplain _ u). tagged_list.
    + eapply (depth_inv_extend c _ u _ any_event (-1)); simpl; eauto.
      * apply tagged_app; [eapply tagged_weaken; [|exact Hbody]; done|].
        apply Forall_cons_2; [done|]. eapply tagged_weaken; [|exact Hntag]. done.
      * rewrite mutex_depth_app, Hb0.
        change ((u, EvMutexExit) :: nevs) with ([(u, EvMutexExit)] ++ nevs).
        rewrite mutex_depth_app.
        rewrite (mutex_depth_neutral u u is_notif nevs); [|by intros [[]| | | | | | | | | | |]|done].
        unfold mutex_depth; simpl. rewrite !bool_decide_true by done. done.
      * intros t Hne. by rewrite lookup_delete_ne.
      * by rewrite Hw, lookup_delete_eq.
      * apply Hbp. by apply placed_exit_notif.
  - destruct (waiting c !! u) as [w|] eqn:Hw.
    { unfold step. by rewrite Hw. }
    destruct (step_release_spec u c Hw (wf_live c Hwf))
      as [(Htb & ->)|[(l & Htb & _ & ->)|[(l & Htb & _ & _ & ->)|(l & Htb & _ & _ & ->)]]].
    all: eapply (depth_inv_extend c _ u _ is_plain 0); simpl; eauto;
      [tagged_list
      |unfold mutex_depth; simpl; rewrite !bool_decide_true by done; done
      |by rewrite Hw
      |apply (Hplain _ u); tagged_list].
Qed.

Lemma depth_inv_run acts : depth_inv (run acts init).
Proof.
  induction acts as [|a acts IH] using rev_ind.
  - split; [done|]. intros i t ev Hi. done.
  - rewrite run_snoc. apply depth_inv_step; [apply wf_run, wf_init|done].
Qed.

(** C9, as stated, fails: in the forced takeover of the run [handover],
    thread 2 captures the stack of thread 3, raises the exception in it and
    renders the report while it is inside the [with] block, after [wait()]
    has given it the mutex back. *)
Lemma takeover_calls_under_mutex :
  trace (step (ActWake 2 (calm_wake 200)) (run handover init)) !! 15%nat
  = Some (2, EvFindFrame 3)
  ∧ mutex_depth 2 (take 15 (trace (step (ActWake 2 (calm_wake 200)) (run handover init))))
    = 1
  ∧ trace (step (ActWake 2 (calm_wake 200)) (run handover init)) !! 19%nat
    = Some (2, EvAsyncRaise 3)
  ∧ mutex_depth 2 (take 19 (trace (step (ActWake 2 (calm_wake 200)) (run handover init))))
    = 1
  ∧ trace (step (ActWake 2 (calm_wake 200)) (run handover init)) !! 20%nat
    = Some (2, EvRender)
  ∧ mutex_depth 2 (take 20 (trace (step (ActWake 2 (calm_wake 200)) (run handover init))))
    = 1.
Proof. vm_compute. done. Qed.

(** Capturing a thread's stack and formatting it. *)
Definition stack_capture (ev : event) : bool :=
  match ev with EvFindFrame _ | EvFormatTraceback => true | _ => false end.

(** Whatever a waiter's turn does before it leaves the [with] block or
    goes back to [wait()] is done at depth 1; the stack captures of the
    turn are among that. *)
Lemma turn_captures_under_mutex (acts : list action) (t : Z) (rd : WakeReadings)
    (j : nat) (u : Z) (ev : event) :
  new_events (ActWake t rd) (run acts init) !! j = Some (u, ev) →
  stack_capture ev = true →
  u = t
  ∧ mutex_depth t (take (length (trace (run acts init)) + j)
                     (trace (step (ActWake t rd) (run acts init)))) = 1.
Proof.
  pose proof (wf_run acts init wf_init) as Hwf.
  destruct (depth_inv_run acts) as [Hd _].
  set (c := run acts init) in *. intros Hj Hcap.
  destruct (waiting c !! t) as [w|] eqn:Hw.
  2: { rewrite new_events_idle in Hj; [done|]. unfold step. by rewrite Hw. }
  destruct (step_wake_spec t w rd c Hw) as (h' & evs & Heff & Hcase).
  pose proof (turn_effect_body _ _ _ _ _ Heff) as Hbody.
  assert (Hdt : mutex_depth t (trace c) = 1) by (by rewrite Hd, Hw).
  assert (Hin : ∀ rest,
    trace (step (ActWake t rd) c) = trace c ++ evs ++ rest →
    (∀ k v e, rest !! k = Some (v, e) → stack_capture e = false) →
    u = t ∧ mutex_depth t (take (length (trace c) + j) (trace (step (ActWake t rd) c))) = 1).
  { intros rest Htr Hrest.
    rewrite (new_events_app c _ _ Htr) in Hj. rewrite Htr, take_app_add, mutex_depth_app, Hdt.
    apply lookup_app_Some in Hj as [Hj|[Hge Hj]].
    - destruct (tagged_lookup _ _ _ _ _ _ Hbody Hj) as [-> _]. split; [done|].
      rewrite take_app_le by (apply lookup_lt_Some in Hj; lia).
      rewrite (mutex_depth_neutral t t is_body); [done| |by apply tagged_take].
      intros [[]| | | | | | | | | | |]; done.
    - apply Hrest in Hj. congruence. }
  destruct Hcase as [(l & chk & _ & _ & Hs)|(_ & _ & nevs & r & Hntag & _ & Hs)].
  - apply (Hin [(t, EvLog LInfo);
                (t, EvWait (warning_timeout w - (w_wait_now rd - chk)))]).
    + by rewrite Hs.
    + intros [|[|k]] v e Hk; simpl in Hk; [by injection Hk as _ <-..|done].
  - apply (Hin ((t, EvMutexExit) :: nevs)).
    + by rewrite Hs.
    + intros [|k] v e Hk; simpl in Hk; [by injection Hk as _ <-|].
      destruct (tagged_lookup _ _ _ _ _ _ Hntag Hk) as [_ He].
      destruct e as [[]| | | | | | | | | | |]; done.
Qed.

(** C9, amended.  In every run, the calls that notify the administrator
    (selecting the e-mailer and sending the mail) are made by a thread that
    is outside every [with (database_write_lock)] block, so without the
    mutex; the delivery of the cancellation signal and the rendering of the
    report are made inside the block, with the mutex held.  And in every
    turn of the waiting loop, from any reachable configuration and so in
    every forced takeover, each call that captures or formats a stack is
    made by the waiter itself inside the block, with the mutex held. *)
Theorem notification_outside_mutex (acts : list action) :
  (∀ i t ev, trace (run acts init) !! i = Some (t, ev) →
     (after_lock ev = true → mutex_depth t (take i (trace (run acts init))) = 0)
     ∧ (under_lock ev = true → mutex_depth t (take i (trace (run acts init))) = 1))
  ∧ (∀ t rd j u ev,
       new_events (ActWake t rd) (run acts init) !! j = Some (u, ev) →
       stack_capture ev = true →
       u = t
       ∧ mutex_depth t (take (length (trace (run acts init)) + j)
                          (trace (step (ActWake t rd) (run acts init)))) = 1).
Proof.
  split.
  - intros i t ev Hi. destruct (depth_inv_run acts) as [_ Hp].
    destruct (Hp i t ev Hi) as [H1 H2].
    split; intros H; [apply H1 in H|apply H2 in H]; lia.
  - intros t rd j u ev. apply turn_captures_under_mutex.
Qed.

Lemma notification_outside_mutex_witness :
  mutex_depth 2 (take 23 (trace (run (handover ++ [ActWake 2 (calm_wake 200)]) init))) = 0
  ∧ mutex_depth 2 (take (length (trace (run handover init)) + 0)
                     (trace (step (ActWake 2 (calm_wake 200)) (run handover init)))) = 1
  ∧ mutex_depth 2 (take (length (trace (run handover init)) + 1)
                     (trace (step (ActWake 2 (calm_wake 200)) (run handover init)))) = 1.
Proof.
  split_and!.
  - refine (proj1 (proj1 (notification_outside_mutex
                            (handover ++ [ActWake 2 (calm_wake 200)]))
                     23%nat 2 EvEmailAdmin _) _).
    + vm_compute. reflexivity.
    + reflexivity.
  - refine (proj2 (proj2 (notification_outside_mutex handover)
                     2 (calm_wake 200) 0%nat 2 (EvFindFrame 3) _ _)).
    + vm_compute. reflexivity.
    + reflexivity.
  - refine (proj2 (proj2 (notification_outside_mutex handover)
                     2 (calm_wake 200) 1%nat 2 EvFormatTraceback _ _)).
    + vm_compute. reflexivity.
    + reflexivity.
Defined.

(** * Further properties of the module *)

(** ** Acquire and release as operations on holder and count *)

Lemma holder_not_waiting c t n : wf c → owner c = Some (t, n) → waiting c !! t = None.
Proof.
  intros Hwf Ho. destruct (waiting c !! t) as [w|] eqn:Hw; [|done]. exfalso.
  unfold owner in Ho. destruct (holder_state c) as [hs|] eqn:Hhs; [|done].
  injection Ho as Hh Hn. by eapply (wf_waiter_not_holder c Hwf t w hs).
Qed.

Lemma owner_inv c t n :
  wf c → owner c = Some (t, n) →
  ∃ l, thread_busy c !! db_key = Some l ∧ (l < length (heap c))%nat
       ∧ holder_id (lookup_state c l) = t ∧ reentrancy_count (lookup_state c l) = n.
Proof.
  intros Hwf Ho. destruct (thread_busy c !! db_key) as [l|] eqn:Htb.
  2: { unfold owner in Ho. by rewrite holder_state_free in Ho. }
  pose proof (wf_live c Hwf l Htb) as Hl. exists l.
  rewrite (owner_live c l Htb Hl) in Ho. injection Ho as Hh Hn. done.
Qed.

Lemma get_by_holder (acts : list action) (t n : Z) (rd : EnterReadings) :
  owner (run acts init) = Some (t, n) →
  guard_passes rd = true →
  owner (step (ActGet t rd) (run acts init)) = Some (t, n + 1)
  ∧ acquired_at <$> holder_state (step (ActGet t rd) (run acts init))
    = acquired_at <$> holder_state (run acts init)
  ∧ results (step (ActGet t rd) (run acts init))
    = results (run acts init) ++ [(t, CallGet, Returned)]
  ∧ waiting (step (ActGet t rd) (run acts init)) = waiting (run acts init).
Proof.
  pose proof (wf_run acts init wf_init) as Hwf.
  set (c := run acts init) in *. intros Ho Hg.
  pose proof (holder_not_waiting c t n Hwf Ho) as Hw.
  destruct (owner_inv c t n Hwf Ho) as (l & Htb & Hl & Hh & Hn).
  destruct (step_get_reentrant t rd c l Hg Hw Htb Hh) as (evs & _ & ->).
  simpl. split_and!; try done.
  - unfold owner, holder_state; simpl. rewrite Htb; simpl.
    rewrite list_lookup_insert_eq by done. simpl. by rewrite Hh, Hn.
  - unfold holder_state; simpl. rewrite Htb; simpl.
    rewrite list_lookup_insert_eq by done. by rewrite (lookup_state_live c l Hl).
Qed.

(** A further [get_db_lock] by the holder, in any reachable state and
    whoever else is waiting, returns at once with the count raised by
    exactly one; holder and acquisition time stay. *)
Theorem reentrant_acquire_increments (acts : list action) (t n : Z) (rd : EnterReadings) :
  owner (run acts init) = Some (t, n) →
  guard_passes rd = true →
  owner (step (ActGet t rd) (run acts init)) = Some (t, n + 1)
  ∧ acquired_at <$> holder_state (step (ActGet t rd) (run acts init))
    = acquired_at <$> holder_state (run acts init)
  ∧ results (step (ActGet t rd) (run acts init))
    = results (run acts init) ++ [(t, CallGet, Returned)]
  ∧ waiting (step (ActGet t rd) (run acts init)) = waiting (run acts init).
Proof. apply get_by_holder. Qed.

Lemma reentrant_acquire_increments_witness :
  owner (step (ActGet 1 (calm 120 30 8)) (run [ActGet 1 (calm 120 30 0)] init))
  = Some (1, 1 + 1).
Proof.
  apply (reentrant_acquire_increments [ActGet 1 (calm 120 30 0)] 1 1 (calm 120 30 8));
    reflexivity.
Defined.

Lemma release_by_holder (acts : list action) (t n : Z) :
  owner (run acts init) = Some (t, n) →
  owner (step (ActRelease t) (run acts init))
  = (if bool_decide (n = 1) then None else Some (t, n - 1))
  ∧ results (step (ActRelease t) (run acts init))
    = results (run acts init) ++ [(t, CallRelease, Returned)]
  ∧ waiting (step (ActRelease t) (run acts init)) = waiting (run acts init).
Proof.
  pose proof (wf_run acts init wf_init) as Hwf.
  set (c := run acts init) in *. intros Ho.
  pose proof (holder_not_waiting c t n Hwf Ho) as Hw.
  destruct (owner_inv c t n Hwf Ho) as (l & Htb & Hl & Hh & Hn).
  pose proof (wf_count c Hwf _ (holder_state_live c l Htb Hl)) as Hc. rewrite Hn in Hc.
  case_bool_decide as H1.
  - rewrite (step_release_frees t c l); [|done|done|done|done|lia].
    simpl. split_and!; try done.
    unfold owner, holder_state; simpl. by rewrite lookup_delete_eq.
  - rewrite (step_release_keeps t c l); [|done|done|done|done|lia].
    simpl. split_and!; try done.
    unfold owner, holder_state; simpl. rewrite Htb; simpl.
    rewrite list_lookup_insert_eq by (rewrite length_app; lia). simpl. by rewrite Hh, Hn.
Qed.

(** A [release_db_lock] by the holder, in any reachable state, returns
    normally and lowers the count by exactly one; the entry goes away
    exactly when the count was 1. *)
Theorem holder_release_decrements (acts : list action) (t n : Z) :
  owner (run acts init) = Some (t, n) →
  owner (step (ActRelease t) (run acts init))
  = (if bool_decide (n = 1) then None else Some (t, n - 1))
  ∧ results (step (ActRelease t) (run acts init))
    = results (run acts init) ++ [(t, CallRelease, Returned)]
  ∧ waiting (step (ActRelease t) (run acts init)) = waiting (run acts init).
Proof. apply release_by_holder. Qed.

Lemma holder_release_decrements_witness :
  owner (step (ActRelease 1)
           (run [ActGet 1 (calm 120 30 0); ActGet 1 (calm 120 30 2)] init))
  = (if bool_decide (2 = 1) then None else Some (1, 2 - 1)).
Proof.
  apply (holder_release_decrements
           [ActGet 1 (calm 120 30 0); ActGet 1 (calm 120 30 2)] 1 2).
  reflexivity.
Defined.

(** [get_db_lock] on a free key, by a thread that is not parked, takes the
    lock with count 1 without waiting. *)
Lemma free_acquire (acts : list action) (t : Z) (rd : EnterReadings) :
  owner (run acts init) = None →
  waiting (run acts init) !! t = None →
  guard_passes rd = true →
  owner (step (ActGet t rd) (run acts init)) = Some (t, 1)
  ∧ waiting (step (ActGet t rd) (run acts init)) = waiting (run acts init).
Proof.
  pose proof (wf_run acts init wf_init) as Hwf.
  set (c := run acts init) in *. intros Ho Hw Hg.
  assert (Htb : thread_busy c !! db_key = None).
  { destruct (thread_busy c !! db_key) as [l|] eqn:Htb; [|done].
    by rewrite (owner_live c l Htb (wf_live c Hwf l Htb)) in Ho. }
  destruct (step_get_free t rd c Hg Hw Htb) as (evs & _ & ->).
  simpl. split; [|done]. unfold owner. by rewrite holder_state_install.
Qed.

(** The actions of [n] nested acquisitions followed by [k] releases. *)
Definition nested (t : Z) (rds : list EnterReadings) (k : nat) : list action :=
  (ActGet t <$> rds) ++ replicate k (ActRelease t).

Lemma run_gets t rds :
  Forall (λ rd, guard_passes rd = true) rds → rds ≠ [] →
  owner (run (ActGet t <$> rds) init) = Some (t, Z.of_nat (length rds)).
Proof.
  induction rds as [|rd rds IH] using rev_ind; [done|].
  intros Hg _. apply Forall_app in Hg as [Hg Hrd].
  apply Forall_inv in Hrd. specialize (IH Hg).
  rewrite fmap_app, run_app.
  change (run (ActGet t <$> [rd]) ?c) with (step (ActGet t rd) c).
  rewrite length_app. cbn [length].
  destruct (decide (rds = [])) as [->|Hne].
  - change (run (ActGet t <$> []) init) with (run [] init).
    apply (free_acquire [] t rd); done.
  - destruct (get_by_holder (ActGet t <$> rds) t _ rd (IH Hne) Hrd)
      as [-> _].
    f_equal. f_equal. lia.
Qed.

(** Nested use by one thread: after [n >= 1] acquisitions and [k <= n]
    releases the count is [n - k], and the key is free exactly when
    [k = n]. *)
Theorem nested_acquire_release (t : Z) (rds : list EnterReadings) (k : nat) :
  Forall (λ rd, guard_passes rd = true) rds → rds ≠ [] → (k ≤ length rds)%nat →
  owner (run (nested t rds k) init)
  = (if bool_decide (k = length rds) then None
     else Some (t, Z.of_nat (length rds) - Z.of_nat k)).
Proof.
  intros Hg Hne. induction k as [|k IH]; intros Hk.
  - unfold nested. simpl. rewrite app_nil_r, run_gets by done.
    rewrite bool_decide_false by (destruct rds; simpl; [done|lia]).
    f_equal. f_equal. lia.
  - unfold nested in *. rewrite replicate_S_end, app_assoc, run_snoc.
    specialize (IH ltac:(lia)). rewrite bool_decide_false in IH by lia.
    destruct (release_by_holder _ t _ IH) as [-> _].
    repeat case_bool_decide; try lia; try done.
    f_equal. f_equal. lia.
Qed.

Lemma nested_acquire_release_witness :
  owner (run (nested 5 [calm 120 30 0; calm 120 30 1; calm 120 30 2] 3) init)
  = (if bool_decide (3%nat = length [calm 120 30 0; calm 120 30 1; calm 120 30 2])
     then None
     else Some (5, Z.of_nat (length [calm 120 30 0; calm 120 30 1; calm 120 30 2])
                   - Z.of_nat 3)).
Proof.
  apply (nested_acquire_release 5 [calm 120 30 0; calm 120 30 1; calm 120 30 2] 3).
  - repeat constructor.
  - discriminate.
  - simpl. lia.
Defined.

(** [release_db_lock] by a thread that is not the holder, while another
    thread holds the key, changes neither holder nor count nor the table
    and returns normally. *)
Theorem stranger_release_is_noop (acts : list action) (t : Z) (hs : HolderState) :
  holder_state (run acts init) = Some hs →
  holder_id hs ≠ t →
  waiting (run acts init) !! t = None →
  holder_state (step (ActRelease t) (run acts init)) = Some hs
  ∧ thread_busy (step (ActRelease t) (run acts init)) = thread_busy (run acts init)
  ∧ results (step (ActRelease t) (run acts init))
    = results (run acts init) ++ [(t, CallRelease, Returned)].
Proof. apply release_by_stranger. Qed.

Lemma stranger_release_is_noop_witness :
  holder_state (step (ActRelease 9) (run [ActGet 1 (calm 120 30 0)] init))
  = Some (mkHolder 1 0 1 false)
  ∧ thread_busy (step (ActRelease 9) (run [ActGet 1 (calm 120 30 0)] init))
    = thread_busy (run [ActGet 1 (calm 120 30 0)] init)
  ∧ results (step (ActRelease 9) (run [ActGet 1 (calm 120 30 0)] init))
    = results (run [ActGet 1 (calm 120 30 0)] init) ++ [(9, CallRelease, Returned)].
Proof.
  apply (stranger_release_is_noop [ActGet 1 (calm 120 30 0)] 9 (mkHolder 1 0 1 false)).
  - vm_compute. reflexivity.
  - discriminate.
  - vm_compute. reflexivity.
Defined.

(** ** A waiter that finds the key free *)

Lemma wake_on_free_key (t : Z) (w : Waiter) (rd : WakeReadings) (c : Config) :
  waiting c !! t = Some w →
  thread_busy c !! db_key = None →
  holder_state (step (ActWake t rd) c) = Some (mkHolder t (w_install rd) 1 false)
  ∧ waiting (step (ActWake t rd) c) !! t = None
  ∧ results (step (ActWake t rd) c) = results c ++ [(t, CallGet, Returned)]
  ∧ trace (step (ActWake t rd) c) = trace c ++ [(t, EvMutexExit)].
Proof.
  intros Hw Htb. unfold step. rewrite Hw.
  unfold get_db_lock_wake, loop_turn, install, notify_admin.
  unfold_monad. simpl. rewrite Htb. simpl.
  unfold finish_get, record_result, set_results, set_trace, set_thread_busy, set_heap,
    set_cond_waiters, set_waiting; simpl.
  rewrite holder_state_install, lookup_delete_eq. done.
Qed.

(** A waiter that wakes up and finds the key free takes it at once: no
    diagnostics, no cancellation, no mail; the only event is leaving the
    [with] block. *)
Theorem waiter_claims_free_key (t : Z) (w : Waiter) (rd : WakeReadings) (c : Config) :
  waiting c !! t = Some w →
  thread_busy c !! db_key = None →
  holder_state (step (ActWake t rd) c) = Some (mkHolder t (w_install rd) 1 false)
  ∧ waiting (step (ActWake t rd) c) !! t = None
  ∧ results (step (ActWake t rd) c) = results c ++ [(t, CallGet, Returned)]
  ∧ trace (step (ActWake t rd) c) = trace c ++ [(t, EvMutexExit)].
Proof. apply wake_on_free_key. Qed.

Lemma waiter_claims_free_key_witness :
  holder_state (step (ActWake 2 (all_fail 50))
                  (run [ActGet 1 (calm 120 30 0); ActGet 2 (calm 120 30 1);
                        ActRelease 1] init))
  = Some (mkHolder 2 50 1 false).
Proof.
  refine (proj1 (waiter_claims_free_key 2 (mkWaiter 0 1 1 120 30) (all_fail 50)
                   (run [ActGet 1 (calm 120 30 0); ActGet 2 (calm 120 30 1);
                         ActRelease 1] init) _ _)).
  - vm_compute. reflexivity.
  - vm_compute. reflexivity.
Defined.

(** ** What a forced takeover does *)

Ltac takeover_cases rd :=
  destruct (w_frame rd) as [[]|], (w_traceback rd) as [[]|],
           (w_async_raise rd) as [[]|], (w_render rd) as [d|],
           (w_notifier rd) as [[]|], (w_email rd) as [[]|];
  simpl; try (case_bool_decide; simpl).

Ltac takeover_events :=
  unfold finish_get, record_result, set_results, set_trace, set_thread_busy, set_heap,
    set_cond_waiters, set_waiting; simpl;
  rewrite <- ?app_assoc; simpl; rewrite drop_app_length.

Ltac solve_membership :=
  split;
  [ intros Hin;
    repeat (destruct Hin as [Hin|Hin]; [try discriminate Hin|]);
    try (exfalso; exact Hin);
    split_and?; eauto
  | intros Hrhs; destruct_and?;
    try discriminate; try congruence;
    try (match goal with H : ∃ _, _ |- _ => destruct H as (? & ? & ?) end;
         try discriminate; try congruence);
    repeat first [left; reflexivity | right] ].

Lemma loop_turn_takeover t w rd c :
  takeover_due c w rd →
  loop_turn t w rd c =
    match takeover_report t (holder_id (lookup_state c (busy_op w))) rd c with
    | (c', Val d) => (c', Val (mkLocals None (check_start_time w) (Some d)))
    | (c', Exc _) =>
        ((log t LError c').1, Val (mkLocals None (check_start_time w) None))
    end.
Proof.
  intros (l & Htb & Hsame & Hdead). unfold loop_turn.
  unfold mbind at 1, M_bind at 1, table_get at 1. rewrite Htb.
  unfold mbind at 1, M_bind at 1, deref at 1.
  unfold mbind at 1, M_bind at 1. unfold mbind at 1, M_bind at 1, deref at 1.
  unfold mret at 1, M_ret at 1. rewrite Hsame.
  rewrite (bool_decide_true _ Hdead).
  unfold mbind at 1, M_bind at 1, try_except at 1.
  unfold mbind at 1, M_bind at 1.
  destruct (takeover_report _ _ _ _) as [c' [d|e]]; reflexivity.
Qed.

Ltac unfold_wake Hw Hdue :=
  unfold new_events, step; rewrite Hw;
  unfold get_db_lock_wake; rewrite bind_run, loop_turn_takeover by exact Hdue;
  unfold takeover_report, install, notify_admin;
  unfold_monad; simpl.

(** In a forced takeover the cancellation signal is sent to the observed
    holder exactly when capturing and formatting its stack succeeded; if
    either fails, the lock is taken without any attempt to stop the old
    holder. *)
Theorem takeover_cancels_iff_stack_captured (t : Z) (w : Waiter) (rd : WakeReadings)
    (c : Config) :
  waiting c !! t = Some w →
  takeover_due c w rd →
  (t, EvAsyncRaise (holder_id (lookup_state c (busy_op w))))
    ∈ new_events (ActWake t rd) c
  ↔ w_frame rd = Ok tt ∧ w_traceback rd = Ok tt.
Proof.
  intros Hw Hdue.
  unfold_wake Hw Hdue.
  takeover_cases rd; takeover_events;
    rewrite ?elem_of_cons, ?elem_of_nil; solve_membership.
Qed.

Lemma takeover_cancels_iff_stack_captured_witness :
  (2, EvAsyncRaise (holder_id (lookup_state (run handover init) 2)))
    ∈ new_events (ActWake 2 (calm_wake 200)) (run handover init)
  ↔ w_frame (calm_wake 200) = Ok tt ∧ w_traceback (calm_wake 200) = Ok tt.
Proof.
  apply (takeover_cancels_iff_stack_captured 2 (mkWaiter 2 0 100 120 100)
           (calm_wake 200) (run handover init)).
  - vm_compute. reflexivity.
  - exists 2%nat. vm_compute. split_and!; reflexivity.
Defined.

(** In a forced takeover the administrator is mailed exactly when the
    whole report was produced (stack captured and formatted, cancellation
    delivered, document rendered and not empty) and an e-mailer is
    registered.  In particular a failed cancellation, which line 84 turns
    into a [TypeError], suppresses the mail. *)
Theorem takeover_mails_iff_report_complete (t : Z) (w : Waiter) (rd : WakeReadings)
    (c : Config) :
  waiting c !! t = Some w →
  takeover_due c w rd →
  (t, EvEmailAdmin) ∈ new_events (ActWake t rd) c
  ↔ w_frame rd = Ok tt ∧ w_traceback rd = Ok tt ∧ w_async_raise rd = Ok tt
    ∧ (∃ d, w_render rd = Ok d ∧ d ≠ EmptyString)
    ∧ w_notifier rd = Ok true.
Proof.
  intros Hw Hdue.
  unfold_wake Hw Hdue.
  takeover_cases rd; takeover_events;
    rewrite ?elem_of_cons, ?elem_of_nil; solve_membership.
Qed.

Lemma takeover_mails_iff_report_complete_witness :
  (2, EvEmailAdmin) ∈ new_events (ActWake 2 (calm_wake 200)) (run handover init)
  ↔ w_frame (calm_wake 200) = Ok tt ∧ w_traceback (calm_wake 200) = Ok tt
    ∧ w_async_raise (calm_wake 200) = Ok tt
    ∧ (∃ d, w_render (calm_wake 200) = Ok d ∧ d ≠ EmptyString)
    ∧ w_notifier (calm_wake 200) = Ok true.
Proof.
  apply (takeover_mails_iff_report_complete 2 (mkWaiter 2 0 100 120 100)
           (calm_wake 200) (run handover init)).
  - vm_compute. reflexivity.
  - exists 2%nat. vm_compute. split_and!; reflexivity.
Defined.

(** ** Release on a free key and under interruption *)

(** [release_db_lock] while no thread holds the key raises [TypeError] to
    the caller, in any reachable state; table, lists and the queue of
    waiters stay as they were and nobody is notified. *)
Theorem release_of_free_key_raises (acts : list action) (t : Z) :
  holder_state (run acts init) = None →
  waiting (run acts init) !! t = None →
  results (step (ActRelease t) (run acts init))
  = results (run acts init) ++ [(t, CallRelease, Raised TypeError)]
  ∧ thread_busy (step (ActRelease t) (run acts init)) = thread_busy (run acts init)
  ∧ heap (step (ActRelease t) (run acts init)) = heap (run acts init)
  ∧ cond_waiters (step (ActRelease t) (run acts init)) = cond_waiters (run acts init)
  ∧ new_events (ActRelease t) (run acts init) = [(t, EvMutexEnter); (t, EvMutexExit)].
Proof.
  pose proof (wf_run acts init wf_init) as Hwf.
  set (c := run acts init) in *. intros Hfree Hw.
  destruct (step_release_spec t c Hw (wf_live c Hwf))
    as [(Htb & Hs)|[(l & Htb & _)|[(l & Htb & _)|(l & Htb & _)]]].
  2-4: by rewrite (holder_state_live c l Htb (wf_live c Hwf l Htb)) in Hfree.
  split_and!; try (rewrite Hs; done).
  apply new_events_app. by rewrite Hs.
Qed.

Lemma release_of_free_key_raises_witness :
  results (step (ActRelease 7) (run [ActGet 1 (calm 120 30 0); ActRelease 1] init))
  = results (run [ActGet 1 (calm 120 30 0); ActRelease 1] init)
    ++ [(7, CallRelease, Raised TypeError)].
Proof.
  refine (proj1 (release_of_free_key_raises [ActGet 1 (calm 120 30 0); ActRelease 1] 7 _ _)).
  - vm_compute. reflexivity.
  - vm_compute. reflexivity.
Defined.

(** A release that is hit by asynchronous [RuntimeError]s inside the body
    of the [with] block, before the snapshot is taken or inside the inner
    [try] (any number of them, at any of those points), still returns
    normally and has the effect of exactly one release: the holder's count
    goes down by one, another thread's lock is left alone. *)
Theorem interrupted_release_rolls_back (acts : list action) (sched : list point)
    (t h n : Z) :
  Forall (λ p, p ≠ AfterInnerTry) sched →
  owner (run acts init) = Some (h, n) →
  (release_db_lock sched t (run acts init)).2 = Val tt
  ∧ owner (release_db_lock sched t (run acts init)).1 = released t h n.
Proof.
  intros Hs Ho. pose proof (wf_run acts init wf_init) as Hwf.
  destruct (owner_inv _ _ _ Hwf Ho) as (l & Htb & Hl & Hh & Hn).
  by apply (release_protected_region t h n sched Hs _ l).
Qed.

(** Thread 1 holds the key with count 1.  Its release is interrupted
    after the pop, the retry at its entry, the next retry after
    [notify()]; the fourth activation runs through.  The events show the
    four activations; the key ends free, as after one release. *)
Lemma interrupted_release_rolls_back_witness :
  ((release_db_lock [AfterPop; AtEntry; AfterNotify] 1
      (run [ActGet 1 (calm 120 30 0)] init)).2 = Val tt
   ∧ owner (release_db_lock [AfterPop; AtEntry; AfterNotify] 1
              (run [ActGet 1 (calm 120 30 0)] init)).1
     = released 1 1 1)
  ∧ drop (length (trace (run [ActGet 1 (calm 120 30 0)] init)))
      (trace (release_db_lock [AfterPop; AtEntry; AfterNotify] 1
                (run [ActGet 1 (calm 120 30 0)] init)).1)
    = [(1, EvMutexEnter);
       (1, EvMutexEnter); (1, EvMutexExit); (1, EvLog LError);
       (1, EvMutexEnter); (1, EvNotify);
       (1, EvMutexEnter); (1, EvNotify); (1, EvMutexExit);
       (1, EvMutexExit); (1, EvMutexExit)].
Proof.
  split.
  - apply (interrupted_release_rolls_back [ActGet 1 (calm 120 30 0)]
             [AfterPop; AtEntry; AfterNotify] 1 1 1).
    + repeat constructor; discriminate.
    + vm_compute. reflexivity.
  - vm_compute. reflexivity.
Defined.

(** ** After a forced takeover *)

(** After a forced takeover the ousted holder no longer owns anything:
    when it then calls [release_db_lock] (as its clean-up will), the call
    returns normally and the new holder's entry, count included, is left
    untouched. *)
Theorem ousted_holder_release_is_noop (acts : list action) (t h : Z) (w : Waiter)
    (rd : WakeReadings) :
  waiting (run acts init) !! t = Some w →
  takeover_due (run acts init) w rd →
  is_holder (run acts init) h →
  holder_state (step (ActWake t rd) (run acts init))
  = Some (mkHolder t (w_install rd) 1 false)
  ∧ holder_state (step (ActRelease h) (step (ActWake t rd) (run acts init)))
    = Some (mkHolder t (w_install rd) 1 false)
  ∧ results (step (ActRelease h) (step (ActWake t rd) (run acts init)))
    = results (step (ActWake t rd) (run acts init)) ++ [(h, CallRelease, Returned)].
Proof.
  pose proof (wf_run acts init wf_init) as Hwf.
  intros Hw Hdue (hs & Hhs & Hh).
  assert (Hht : h ≠ t).
  { intros ->. by apply (wf_waiter_not_holder _ Hwf t w hs). }
  assert (Hwh : waiting (run acts init) !! h = None).
  { apply (holder_not_waiting _ h (reentrancy_count hs) Hwf).
    unfold owner. rewrite Hhs. simpl. by rewrite Hh. }
  assert (Hnew : holder_state (step (ActWake t rd) (run acts init))
                 = Some (mkHolder t (w_install rd) 1 false)
                 ∧ waiting (step (ActWake t rd) (run acts init)) !! h = None).
  { destruct (step_wake_spec t w rd _ Hw) as (h' & evs & _ & Hcase).
    destruct Hcase as [(l & chk & _ & Hnd & _)|(_ & _ & nevs & r & _ & _ & ->)]; [done|].
    rewrite holder_state_install. simpl. split; [done|].
    by rewrite lookup_delete_ne. }
  destruct Hnew as [Hnew Hwh'].
  rewrite <- run_snoc in Hnew, Hwh' |- *.
  destruct (release_by_stranger (acts ++ [ActWake t rd]) h _ Hnew) as (? & _ & ?);
    [simpl; congruence | done | done].
Qed.

Lemma ousted_holder_release_is_noop_witness :
  holder_state (step (ActRelease 3) (step (ActWake 2 (calm_wake 200)) (run handover init)))
  = Some (mkHolder 2 200 1 false).
Proof.
  refine (proj1 (proj2 (ousted_holder_release_is_noop handover 2 3
                          (mkWaiter 2 0 100 120 100) (calm_wake 200) _ _ _))).
  - vm_compute. reflexivity.
  - exists 2%nat. vm_compute. split_and!; reflexivity.
  - exists (mkHolder 3 100 1 false). vm_compute. split; reflexivity.
Defined.

(** ** When a waiter gets the lock *)

Lemma loop_turn_yields t w rd c c' lv :
  loop_turn t w rd c = (c', Val lv) →
  loc_busy_op lv = None →
  thread_busy c !! db_key = None ∨ takeover_due c w rd.
Proof.
  unfold loop_turn.
  unfold mbind at 1, M_bind at 1, table_get at 1.
  unfold mbind at 1, M_bind at 1, deref at 1.
  destruct (thread_busy c !! db_key) as [l'|] eqn:Htb; [|by left].
  unfold mbind at 1, M_bind at 1. unfold mbind at 1, M_bind at 1, deref at 1.
  unfold mret at 1, M_ret at 1.
  destruct (same_op (lookup_state c (busy_op w)) (lookup_state c l')) eqn:Hsame.
  2: { unfold mret, M_ret. intros [= <- <-]. done. }
  case_bool_decide as Hdead.
  { intros _ _. right. exists l'. done. }
  case_bool_decide as Hwarn.
  2: { unfold mret, M_ret. intros [= <- <-]. done. }
  unfold mbind at 1, M_bind at 1, deref at 1.
  unfold mbind at 1, M_bind at 1.
  destruct (if warned (lookup_state c (busy_op w)) then mret () else _) as [c1 [[]|e]];
    unfold mret, M_ret; intros [= <- <-]; done.
Qed.

(** A waiter whose [wait()] returns takes the lock in that turn exactly
    when the key is free or the forced-takeover condition holds (the list
    it observes is still the holder's and more than [max_wait] has passed
    since the call started); in every other case it goes back to
    [wait()]. *)
Theorem waiter_acquires_iff (acts : list action) (t : Z) (w : Waiter)
    (rd : WakeReadings) :
  waiting (run acts init) !! t = Some w →
  is_holder (step (ActWake t rd) (run acts init)) t
  ↔ holder_state (run acts init) = None ∨ takeover_due (run acts init) w rd.
Proof.
  pose proof (wf_run acts init wf_init) as Hwf.
  set (c := run acts init) in *. intros Hw. split.
  - intros (hs & Hhs & Hh).
    assert (Hfree : thread_busy c !! db_key = None ∨ takeover_due c w rd).
    { revert Hhs. unfold step. rewrite Hw. unfold get_db_lock_wake. rewrite bind_run.
      set (c0 := set_cond_waiters _ _).
      destruct (loop_turn_spec t w rd c0)
        as (c' & lv & evs & Hr & Htb & Hwt & Hcw & Hrs & Htr & Heff & Hlv & Hdue).
      rewrite Hr.
      destruct (loc_busy_op lv) as [l|] eqn:Hl.
      2: { intros _. apply (loop_turn_yields t w rd c0 c' lv Hr Hl). }
      unfold park; unfold_monad; simpl. unfold holder_state; simpl.
      rewrite Htb; simpl. intros Hhs. exfalso.
      destruct (thread_busy c !! db_key) as [l0|] eqn:Htb0; [|done]. simpl in Hhs.
      assert (Hcore : core <$> heap c' !! l0 = core <$> heap c !! l0).
      { destruct Heff as [[-> _]|(_ & _ & -> & _)]; [done|]. simpl.
        destruct (decide (busy_op w = l0)) as [<-|Hne].
        - pose proof (wf_waiter_live c Hwf t w Hw) as Hlt.
          rewrite list_lookup_insert_eq by done.
          unfold lookup_state; simpl.
          destruct (heap c !! busy_op w) eqn:Hb; [done|].
          apply lookup_ge_None in Hb. lia.
        - by rewrite list_lookup_insert_ne. }
      rewrite Hhs in Hcore. simpl in Hcore.
      destruct (heap c !! l0) as [hs0|] eqn:Hl0; [|done].
      injection Hcore as Hid _ _.
      apply (wf_waiter_not_holder c Hwf t w hs0 Hw).
      + unfold holder_state. rewrite Htb0. done.
      + congruence. }
    destruct Hfree as [Hf|Hd]; [left|by right].
    by apply holder_state_free.
  - intros [Hfree|Hdue].
    + assert (Htb : thread_busy c !! db_key = None).
      { destruct (thread_busy c !! db_key) as [l|] eqn:Htb; [|done].
        by rewrite (holder_state_live c l Htb (wf_live c Hwf l Htb)) in Hfree. }
      destruct (wake_on_free_key t w rd c Hw Htb) as (Hhs & _).
      eexists. split; [exact Hhs|done].
    + destruct (step_wake_spec t w rd c Hw) as (h' & evs & _ & Hcase).
      destruct Hcase as [(l & chk & _ & Hnd & _)|(_ & _ & nevs & r & _ & _ & ->)]; [done|].
      eexists. rewrite holder_state_install. done.
Qed.

Lemma waiter_acquires_iff_witness :
  is_holder (step (ActWake 2 (calm_wake 200)) (run handover init)) 2
  ↔ holder_state (run handover init) = None
    ∨ takeover_due (run handover init) (mkWaiter 2 0 100 120 100) (calm_wake 200).
Proof.
  apply (waiter_acquires_iff handover 2 (mkWaiter 2 0 100 120 100) (calm_wake 200)).
  vm_compute. reflexivity.
Defined.

(** ** The role check *)

(** The readings of the same call in a process that is not a slave. *)
Definition as_master (rd : EnterReadings) : EnterReadings :=
  mkEnter (e_max_wait rd) (e_warning_timeout rd) (Ok false) (e_frame rd)
    (e_traceback rd) (e_start rd) (e_wait_now rd) (e_install rd).

(** Two configurations that differ at most in the events recorded. *)
Definition same_lock_state (c1 c2 : Config) : Prop :=
  heap c1 = heap c2 ∧ thread_busy c1 = thread_busy c2
  ∧ cond_waiters c1 = cond_waiters c2 ∧ waiting c1 = waiting c2
  ∧ results c1 = results c2.

(** Running on a SLAVE refuses nothing: when the role check runs through,
    the call does to the table, the lists, the waiters and its own result
    exactly what it does on a master; the check only adds log entries. *)
Theorem slave_mode_is_only_logged (t : Z) (rd : EnterReadings) (c : Config) :
  guard_passes rd = true →
  same_lock_state (step (ActGet t rd) c) (step (ActGet t (as_master rd)) c).
Proof.
  intros Hg. unfold same_lock_state.
  destruct (waiting c !! t) as [w|] eqn:Hw.
  { unfold step. rewrite Hw. done. }
  destruct (step_get_spec t rd c Hw) as (evs & _ & Hcase).
  destruct (step_get_spec t (as_master rd) c Hw) as (evs' & _ & Hcase').
  destruct Hcase as [(e & _ & Hf & _)|[(Htb & ->)|[(l & Htb & Hh & ->)|(l & Htb & Hh & ->)]]];
    [congruence| | |];
    (destruct Hcase'
      as [(e' & _ & Hf' & _)|[(Htb' & ->)|[(l' & Htb' & Hh' & ->)|(l' & Htb' & Hh' & ->)]]];
     [discriminate Hf'| | |]);
    try congruence; simpl; try done.
  all: assert (l' = l) as -> by congruence; done.
Qed.

Lemma slave_mode_is_only_logged_witness :
  same_lock_state
    (step (ActGet 2 (mkEnter 120 30 (Ok true) (Ok tt) (Ok tt) 5 5 5))
       (run [ActGet 1 (calm 120 30 0)] init))
    (step (ActGet 2 (as_master (mkEnter 120 30 (Ok true) (Ok tt) (Ok tt) 5 5 5)))
       (run [ActGet 1 (calm 120 30 0)] init)).
Proof.
  apply (slave_mode_is_only_logged 2 (mkEnter 120 30 (Ok true) (Ok tt) (Ok tt) 5 5 5)
           (run [ActGet 1 (calm 120 30 0)] init)).
  reflexivity.
Defined.

(** ** The timed wait *)

(** The anchor a turn leaves behind when the call goes back to [wait()]:
    a fresh clock reading, or the old anchor when less than
    [warning_timeout] has passed since. *)
Lemma loop_turn_anchor t w rd c c' lv l :
  loop_turn t w rd c = (c', Val lv) →
  loc_busy_op lv = Some l →
  loc_check_start_time lv = w_anchor_now rd
  ∨ (loc_check_start_time lv = check_start_time w
     ∧ w_warn_now rd - check_start_time w ≤ warning_timeout w).
Proof.
  unfold loop_turn.
  unfold mbind at 1, M_bind at 1, table_get at 1.
  unfold mbind at 1, M_bind at 1, deref at 1.
  destruct (thread_busy c !! db_key) as [l'|] eqn:Htb.
  2: { unfold_monad; simpl. intros [= <- <-]. by left. }
  unfold mbind at 1, M_bind at 1. unfold mbind at 1, M_bind at 1, deref at 1.
  unfold mret at 1, M_ret at 1.
  destruct (same_op (lookup_state c (busy_op w)) (lookup_state c l')) eqn:Hsame.
  2: { unfold mret, M_ret. intros [= <- <-]. by left. }
  case_bool_decide as Hdead.
  { unfold mbind at 1, M_bind at 1.
    destruct (try_except _ _ c) as [c1 [d|e]]; unfold mret, M_ret; intros [= <- <-]; done. }
  case_bool_decide as Hwarn.
  2: { unfold mret, M_ret. intros [= <- <-]. right. simpl. split; [done|lia]. }
  unfold mbind at 1, M_bind at 1, deref at 1.
  unfold mbind at 1, M_bind at 1.
  destruct (if warned (lookup_state c (busy_op w)) then mret () else _) as [c1 [[]|e]];
    unfold mret, M_ret; intros [= <- <-]; by left.
Qed.

(** A call that goes back to [wait()] keeps its [start_time], [max_wait]
    and [warning_timeout], and, when the clock does not run backwards,
    never asks for a wait longer than [warning_timeout]; when no time
    passes during the turn the timeout is not negative either. *)
Theorem rearmed_wait_is_bounded (t : Z) (w w' : Waiter) (rd : WakeReadings)
    (c : Config) :
  waiting c !! t = Some w →
  waiting (step (ActWake t rd) c) !! t = Some w' →
  check_start_time w ≤ w_warn_now rd →
  w_warn_now rd ≤ w_wait_now rd →
  w_anchor_now rd ≤ w_wait_now rd →
  start_time w' = start_time w
  ∧ max_wait_for_exclusive_lock w' = max_wait_for_exclusive_lock w
  ∧ warning_timeout w' = warning_timeout w
  ∧ ∃ d, last (trace (step (ActWake t rd) c)) = Some (t, EvWait d)
         ∧ d = warning_timeout w - (w_wait_now rd - check_start_time w')
         ∧ d ≤ warning_timeout w
         ∧ (w_warn_now rd = w_wait_now rd → w_anchor_now rd = w_wait_now rd →
            0 ≤ warning_timeout w → 0 ≤ d).
Proof.
  intros Hw Hw' Hc1 Hc2 Hc3. revert Hw'.
  unfold step. rewrite Hw. unfold get_db_lock_wake. rewrite bind_run.
  set (c0 := set_cond_waiters _ _).
  destruct (loop_turn_spec t w rd c0)
    as (c' & lv & evs & Hr & Htb & Hwt & Hcw & Hrs & Htr & Heff & Hlv & Hdue).
  rewrite Hr.
  destruct (loc_busy_op lv) as [l|] eqn:Hl.
  - unfold park; unfold_monad; simpl.
    rewrite lookup_insert_eq. intros [= <-]. simpl.
    split_and!; try done.
    eexists. split; [apply last_snoc|]. split; [done|].
    destruct (loop_turn_anchor t w rd c0 c' lv l Hr Hl) as [->|[-> Hle]];
      split; intros; lia.
  - set (c1 := fst ((install t (w_install rd);; emit t EvMutexExit) c')).
    destruct (notify_admin_spec t (loc_dump_file_contents lv) rd c1)
      as (nevs & r & Hn & _ & _).
    unfold install; unfold_monad; simpl.
    unfold c1, install in Hn; unfold_monad; simpl in Hn. rewrite Hn.
    destruct r as [[]|e]; simpl;
      unfold finish_get, record_result, set_results, add_trace; simpl;
      rewrite Hwt; simpl; rewrite lookup_delete_eq; done.
Qed.

Lemma rearmed_wait_is_bounded_witness :
  ∃ d, last (trace (step (ActWake 2 (calm_wake 10))
                      (run [ActGet 1 (calm 120 30 0); ActGet 2 (calm 120 30 1)] init)))
       = Some (2, EvWait d)
       ∧ d = 30 - (10 - 1) ∧ d ≤ 30.
Proof.
  destruct (rearmed_wait_is_bounded 2 (mkWaiter 0 1 1 120 30) (mkWaiter 0 1 1 120 30)
              (calm_wake 10)
              (run [ActGet 1 (calm 120 30 0); ActGet 2 (calm 120 30 1)] init))
    as (_ & _ & _ & d & Hd & Heq & Hle & _).
  - vm_compute. reflexivity.
  - vm_compute. reflexivity.
  - simpl. lia.
  - simpl. lia.
  - simpl. lia.
  - exists d. split_and!; [exact Hd | exact Heq | exact Hle].
Defined.

(** * j5.Basic.TimeUtils

    [totalseconds] (src/j5/src/j5/Basic/TimeUtils.py, lines 16-18) reads
    two attributes of a [datetime.timedelta]. *)

(** The attributes of a [datetime.timedelta]. *)
Record timedelta := mkDelta {
  days : Z;
  seconds : Z;
  microseconds : Z
}.

(** [datetime] stores every timedelta normalised: the sign is carried by
    [days] alone. *)
Definition normalized (td : timedelta) : Prop :=
  0 ≤ seconds td < 86400 ∧ 0 ≤ microseconds td < 1000000.

(** Lines 16-18. *)
Definition totalseconds (td : timedelta) : Z :=
  seconds td + (days td * 24 * 60 * 60).

(** The duration a timedelta stands for, in microseconds. *)
Definition duration_us (td : timedelta) : Z :=
  (days td * 86400 + seconds td) * 1000000 + microseconds td.

(** [totalseconds] drops the microseconds: the result is the duration in
    whole seconds rounded towards minus infinity, also for negative
    durations. *)
Theorem totalseconds_is_floor (td : timedelta) :
  normalized td →
  totalseconds td = duration_us td `div` 1000000.
Proof.
  intros [Hs Hu]. unfold totalseconds, duration_us.
  rewrite Z.div_add_l by lia. rewrite Z.div_small by lia. lia.
Qed.

Lemma totalseconds_is_floor_witness :
  totalseconds (mkDelta (-1) 86399 999999)
  = duration_us (mkDelta (-1) 86399 999999) `div` 1000000.
Proof.
  apply (totalseconds_is_floor (mkDelta (-1) 86399 999999)).
  unfold normalized; simpl. lia.
Defined.

(** Days and seconds can be read back from the result: no two normalised
    timedeltas with different days or seconds have the same
    [totalseconds]. *)
Theorem totalseconds_round_trip (td : timedelta) :
  normalized td →
  days td = totalseconds td `div` 86400
  ∧ seconds td = totalseconds td `mod` 86400.
Proof.
  intros [Hs _]. unfold totalseconds.
  replace (seconds td + days td * 24 * 60 * 60) with (seconds td + days td * 86400) by lia.
  rewrite Z.div_add by lia. rewrite Z.div_small by lia.
  rewrite Z_mod_plus_full. rewrite Z.mod_small by lia. lia.
Qed.

Lemma totalseconds_round_trip_witness :
  days (mkDelta (-3) 7200 15) = totalseconds (mkDelta (-3) 7200 15) `div` 86400
  ∧ seconds (mkDelta (-3) 7200 15) = totalseconds (mkDelta (-3) 7200 15) `mod` 86400.
Proof.
  apply (totalseconds_round_trip (mkDelta (-3) 7200 15)).
  unfold normalized; simpl. lia.
Defined.
